(** * go-xmpp: the RFC 6120 client core and the RFC 6121 layer on top of it

    A shallow embedding of [client/rfc6120/client.go] and
    [client/rfc6121/client.go].  Go strings are byte strings and are
    modelled by [string] (a list of 8-bit [ascii]); channels live in a
    store indexed by references, so that two references to one channel
    alias; the connection is a record threaded through a small
    state-and-failure monad whose failures are Go's two ways of not
    returning: a panic and a goroutine that blocks for ever. *)

From Stdlib Require Import ZArith NArith Ascii String List Lia.
From Stdlib Require Import DecimalString DecimalN DecimalPos.
From stdpp Require Import gmap strings list fin_maps.

(** ** Outcomes of a Go call *)

Inductive outcome (S A : Type) : Type :=
| Ok (a : A) (s : S)      (* the call returned [a] *)
| Panic (s : S)           (* run-time panic, state at the panic *)
| Blocked (s : S).        (* the goroutine waits for ever *)

Arguments Ok {S A} a s.
Arguments Panic {S A} s.
Arguments Blocked {S A} s.

Definition M (S A : Type) : Type := S -> outcome S A.

Definition ret {S A} (a : A) : M S A := fun s => Ok a s.

Definition bind {S A B} (m : M S A) (k : A -> M S B) : M S B :=
  fun s => match m s with
           | Ok a s' => k a s'
           | Panic s' => Panic s'
           | Blocked s' => Blocked s'
           end.

Notation "x <- m ;; k" := (bind m (fun x => k))
  (at level 100, m at next level, right associativity).
Notation "m ;;; k" := (bind m (fun _ => k))
  (at level 100, right associativity).

(** Run [f] on every element in turn: the body of a [for ... range]. *)
Fixpoint for_each {S A} (f : A -> M S unit) (l : list A) : M S unit :=
  match l with
  | [] => ret tt
  | x :: l' => f x ;;; for_each f l'
  end.

(** The state an outcome ends in, whatever its kind. *)
Definition final {S A} (o : outcome S A) : S :=
  match o with Ok _ s => s | Panic s => s | Blocked s => s end.

Definition returned {S A} (o : outcome S A) : bool :=
  match o with Ok _ _ => true | _ => false end.

(** ** Channels *)

(** A channel as the sending goroutine meets it, between two of its own
    steps.  [cbuf] lists the values the channel has accepted, oldest
    first; [ccap] is the number of values it can accept before a sender
    has to wait: the buffer size given to [make] (a receiver already
    parked on the channel is one more such place).  A reference that is
    not in the store is Go's nil channel. *)
Record chan (A : Type) : Type := MkChan {
  ccap : nat;
  cbuf : list A;
  cclosed : bool
}.

Arguments MkChan {A} _ _ _.
Arguments ccap {A} _.
Arguments cbuf {A} _.
Arguments cclosed {A} _.

Definition make_chan {A} (n : nat) : chan A := MkChan n [] false.

Definition chan_ready {A} (c : chan A) : bool := length (cbuf c) <? ccap c.

Definition chan_push {A} (v : A) (c : chan A) : chan A :=
  MkChan (ccap c) (cbuf c ++ [v]) (cclosed c).

Definition chan_shut {A} (c : chan A) : chan A :=
  MkChan (ccap c) (cbuf c) true.

(** Free places of a channel. *)
Definition chan_room {A} (c : chan A) : nat := ccap c - length (cbuf c).

(** ** encoding/xml tokens *)

Record Name : Type := MkName { Space : string; Local : string }.

Record Attr : Type := MkAttr { attr_Name : Name; attr_Value : string }.

Record StartElement : Type := MkStart { se_Name : Name; se_Attr : list Attr }.

Inductive Token : Type :=
| TStartElement (t : StartElement)
| TEndElement (n : Name)
| TCharData (s : string)
| TOther.                  (* Comment, ProcInst, Directive *)

Definition zeroName : Name := MkName EmptyString EmptyString.

(** ** Byte-string helpers *)

Definition NUL : ascii := ascii_of_nat 0.
Definition quote : ascii := ascii_of_nat 34.
Definition apos : ascii := ascii_of_nat 39.

Definition str1 (c : ascii) : string := String c EmptyString.

(** [strings.Split(s, sep)] for a one-byte separator. *)
Fixpoint Split_acc (sep : ascii) (cur : string) (s : string) : list string :=
  match s with
  | EmptyString => [cur]
  | String c s' =>
      if Ascii.eqb c sep then cur :: Split_acc sep EmptyString s'
      else Split_acc sep (cur +:+ str1 c) s'
  end.

Definition Split (s : string) (sep : ascii) : list string :=
  Split_acc sep EmptyString s.

(** [fmt.Sprintf("%d", n)] for an unsigned [n]. *)
Definition Sprintf_d (n : N) : string :=
  NilZero.string_of_uint (N.to_uint n).

(** [strings.HasPrefix] *)
Fixpoint HasPrefix (s prefix : string) : bool :=
  match prefix with
  | EmptyString => true
  | String a p =>
      match s with
      | EmptyString => false
      | String b s' => Ascii.eqb a b && HasPrefix s' p
      end
  end.

Definition bytes (l : list nat) : string :=
  string_of_list_ascii (map ascii_of_nat l).

Definition reverse (s : string) : string :=
  string_of_list_ascii (rev (list_ascii_of_string s)).

(** The characters [unicode.IsSpace] holds of, as UTF-8 encodes them:
    tab to carriage return, the space, U+0085, U+00A0, U+1680, U+2000 to
    U+200A, U+2028, U+2029, U+202F, U+205F and U+3000. *)
Definition white_space : list string :=
  map bytes
    [[9]; [10]; [11]; [12]; [13]; [32]; [194; 133]; [194; 160]; [225; 154; 128];
     [226; 128; 128]; [226; 128; 129]; [226; 128; 130]; [226; 128; 131];
     [226; 128; 132]; [226; 128; 133]; [226; 128; 134]; [226; 128; 135];
     [226; 128; 136]; [226; 128; 137]; [226; 128; 138]; [226; 128; 168];
     [226; 128; 169]; [226; 128; 175]; [226; 129; 159]; [227; 128; 128]].

(** Bytes the white-space character at the head of [s] takes; 0 when
    there is none. *)
Definition space_width (ws : list string) (s : string) : nat :=
  match find (HasPrefix s) ws with
  | Some w => String.length w
  | None => 0
  end.

(** [s] without the white space it begins with; [skip] bytes of a
    character already recognised are still to pass. *)
Fixpoint trim_left (ws : list string) (skip : nat) (s : string) : string :=
  match s with
  | EmptyString => EmptyString
  | String _ s' =>
      match skip with
      | S k => trim_left ws k s'
      | O =>
          match space_width ws s with
          | O => s
          | S n => trim_left ws n s'
          end
      end
  end.

(** [strings.TrimSpace] *)
Definition TrimSpace (s : string) : string :=
  reverse (trim_left (map reverse white_space) 0
             (reverse (trim_left white_space 0 s))).

Definition is_digit (c : ascii) : bool :=
  ((48 <=? N_of_ascii c) && (N_of_ascii c <=? 57))%N.

Fixpoint digits_value (acc : Z) (s : string) : option Z :=
  match s with
  | EmptyString => Some acc
  | String c s' =>
      if is_digit c
      then digits_value (10 * acc + (Z.of_N (N_of_ascii c) - 48))%Z s'
      else None
  end.

(** [strconv.ParseInt(s, 10, 64)]: an optional sign, then decimal digits
    and nothing else, at least one; [None] for what is not a number of
    64 bits. *)
Definition ParseInt (s : string) : option Z :=
  let '(neg, body) :=
    match s with
    | String c s' =>
        if Ascii.eqb c (ascii_of_nat 45) then (true, s')
        else if Ascii.eqb c (ascii_of_nat 43) then (false, s')
        else (false, s)
    | EmptyString => (false, s)
    end in
  match body with
  | EmptyString => None
  | _ =>
      match digits_value 0 body with
      | Some n =>
          let v := if neg : bool then (- n)%Z else n in
          if ((- 2 ^ 63 <=? v) && (v <=? 2 ^ 63 - 1))%Z then Some v else None
      | None => None
      end
  end.

(** ** encoding/base64: [StdEncoding.EncodeToString] *)

Definition encodeStd : string :=
  "ABCDEFGHIJKLMNOPQRSTUVWXYZabcdefghijklmnopqrstuvwxyz0123456789+/".

Definition padChar : ascii := ascii_of_nat 61.

(** [enc.encode[i & 0x3F]] *)
Definition enc (i : N) : ascii :=
  match String.get (N.to_nat (N.land i 63)) encodeStd with
  | Some c => c
  | None => padChar
  end.

Definition quantum (val : N) (k : N) : ascii := enc (N.shiftr val k).

Fixpoint base64_encode (src : list ascii) : list ascii :=
  match src with
  | [] => []
  | [a] =>
      let val := N.shiftl (N_of_ascii a) 16 in
      [quantum val 18; quantum val 12; padChar; padChar]
  | [a; b] =>
      let val := N.lor (N.shiftl (N_of_ascii a) 16) (N.shiftl (N_of_ascii b) 8) in
      [quantum val 18; quantum val 12; quantum val 6; padChar]
  | a :: b :: c :: rest =>
      let val := N.lor (N.lor (N.shiftl (N_of_ascii a) 16)
                              (N.shiftl (N_of_ascii b) 8)) (N_of_ascii c) in
      quantum val 18 :: quantum val 12 :: quantum val 6 :: quantum val 0
        :: base64_encode rest
  end.

Definition EncodeToString (src : string) : string :=
  string_of_list_ascii (base64_encode (list_ascii_of_string src)).

Module rfc6120.

(** ** Name spaces *)

Definition nsStream : string := "http://etherx.jabber.org/streams".
Definition nsTLS : string := "urn:ietf:params:xml:ns:xmpp-tls".
Definition nsSASL : string := "urn:ietf:params:xml:ns:xmpp-sasl".
Definition nsBind : string := "urn:ietf:params:xml:ns:xmpp-bind".
Definition nsSession : string := "urn:ietf:params:xml:ns:xmpp-session".
Definition nsClient : string := "jabber:client".

(** ** Stanzas *)

Record Header : Type := MkHeader {
  From : string;
  Id : string;
  To : string;
  Type_ : string
}.

Record Error : Type := MkError {
  err_Code : string;
  err_Type : string;
  err_Any : Name;
  err_Text : string
}.

Record streamError : Type := MkStreamError {
  se_Any : Name;
  se_Text : string
}.

Record Message : Type := MkMessage {
  msg_Header : Header;
  Subject : string;
  Body : string;
  Thread : string
}.

Record Presence : Type := MkPresence {
  pres_Header : Header;
  Lang : string;
  Show : string;
  Status : string;
  Priority : Z;
  pres_Error : option Error
}.

Record IQ : Type := MkIQ {
  iq_Header : Header;
  iq_Error : option Error;
  Query : Name;
  Inner : list Token       (* the inner XML, kept as its tokens *)
}.

(** The values a [Stanza] interface variable holds in this program: nil,
    a pointer to one of the five stanza structs of this package, or the
    [*AuthorizationRequest] that package rfc6121 emits. *)
Inductive Stanza : Type :=
| SNil
| SStreamError (e : streamError)
| SMessage (m : Message)
| SPresence (p : Presence)
| SIQ (iq : IQ)
| SError (e : Error)
| SAuthorizationRequest (p : Presence).

(** [Header.ID], [Error.ID], [streamError.ID] *)
Definition ID (s : Stanza) : string :=
  match s with
  | SMessage m => Id (msg_Header m)
  | SPresence p => Id (pres_Header p)
  | SIQ iq => Id (iq_Header iq)
  | SAuthorizationRequest p => Id (pres_Header p)
  | SStreamError _ | SError _ | SNil => EmptyString
  end.

(** [Header.IsError], [Error.IsError], [streamError.IsError] *)
Definition IsError (s : Stanza) : bool :=
  match s with
  | SStreamError _ | SError _ => true
  | _ => false
  end.

(** ** The connection *)

(** What the router and the senders do to the callback table and its
    channels, in program order. *)
Inductive event : Type :=
| EvLock
| EvUnlock
| EvInsert (id : string) (ch : nat)
| EvSend (ch : nat) (iq : IQ)
| EvDelete (id : string)
| EvClose (ch : nat).

(** Modelled from the spec: the declaration of [Features] is not among
    the sources; the spec describes it as the set of advertised feature
    names, each possibly marked required. *)
Definition Features : Type := list (string * bool).

Record Connection : Type := MkConnection {
  conn_open : bool;                 (* c.Conn.Close() not called yet *)
  wire : string;                    (* bytes handed to c.Write, in order *)
  mu : bool;                        (* sync.Mutex is held *)
  user : string;
  host : string;
  decoder : list Token;             (* what the xml.Decoder has yet to yield *)
  later : list (list Token);        (* what the decoders made after it will yield *)
  features : Features;
  password : string;
  cookie : N;                       (* [id] of the generateCookies goroutine *)
  jid : string;
  callbacks : gmap string nat;
  closing : bool;
  subscribers : list nat;           (* subscribers.chans *)
  iqchans : gmap nat (chan IQ);     (* store of [chan *IQ] *)
  stchans : gmap nat (chan Stanza); (* store of [chan Stanza] *)
  log : list event
}.

Definition set_conn_open (b : bool) (c : Connection) : Connection :=
  MkConnection b (wire c) (mu c) (user c) (host c) (decoder c) (later c) (features c)
    (password c) (cookie c) (jid c) (callbacks c) (closing c) (subscribers c)
    (iqchans c) (stchans c) (log c).

Definition set_wire (w : string) (c : Connection) : Connection :=
  MkConnection (conn_open c) w (mu c) (user c) (host c) (decoder c) (later c) (features c)
    (password c) (cookie c) (jid c) (callbacks c) (closing c) (subscribers c)
    (iqchans c) (stchans c) (log c).

Definition set_mu (b : bool) (c : Connection) : Connection :=
  MkConnection (conn_open c) (wire c) b (user c) (host c) (decoder c) (later c) (features c)
    (password c) (cookie c) (jid c) (callbacks c) (closing c) (subscribers c)
    (iqchans c) (stchans c) (log c).

Definition set_decoder (d : list Token) (c : Connection) : Connection :=
  MkConnection (conn_open c) (wire c) (mu c) (user c) (host c) d (later c) (features c)
    (password c) (cookie c) (jid c) (callbacks c) (closing c) (subscribers c)
    (iqchans c) (stchans c) (log c).

Definition set_later (l : list (list Token)) (c : Connection) : Connection :=
  MkConnection (conn_open c) (wire c) (mu c) (user c) (host c) (decoder c) l
    (features c) (password c) (cookie c) (jid c) (callbacks c) (closing c)
    (subscribers c) (iqchans c) (stchans c) (log c).

Definition set_features (f : Features) (c : Connection) : Connection :=
  MkConnection (conn_open c) (wire c) (mu c) (user c) (host c) (decoder c) (later c) f
    (password c) (cookie c) (jid c) (callbacks c) (closing c) (subscribers c)
    (iqchans c) (stchans c) (log c).

Definition set_cookie (n : N) (c : Connection) : Connection :=
  MkConnection (conn_open c) (wire c) (mu c) (user c) (host c) (decoder c) (later c)
    (features c) (password c) n (jid c) (callbacks c) (closing c) (subscribers c)
    (iqchans c) (stchans c) (log c).

Definition set_callbacks (m : gmap string nat) (c : Connection) : Connection :=
  MkConnection (conn_open c) (wire c) (mu c) (user c) (host c) (decoder c) (later c)
    (features c) (password c) (cookie c) (jid c) m (closing c) (subscribers c)
    (iqchans c) (stchans c) (log c).

Definition set_closing (b : bool) (c : Connection) : Connection :=
  MkConnection (conn_open c) (wire c) (mu c) (user c) (host c) (decoder c) (later c)
    (features c) (password c) (cookie c) (jid c) (callbacks c) b (subscribers c)
    (iqchans c) (stchans c) (log c).

Definition set_subscribers (l : list nat) (c : Connection) : Connection :=
  MkConnection (conn_open c) (wire c) (mu c) (user c) (host c) (decoder c) (later c)
    (features c) (password c) (cookie c) (jid c) (callbacks c) (closing c) l
    (iqchans c) (stchans c) (log c).

Definition set_iqchans (h : gmap nat (chan IQ)) (c : Connection) : Connection :=
  MkConnection (conn_open c) (wire c) (mu c) (user c) (host c) (decoder c) (later c)
    (features c) (password c) (cookie c) (jid c) (callbacks c) (closing c)
    (subscribers c) h (stchans c) (log c).

Definition set_stchans (h : gmap nat (chan Stanza)) (c : Connection) : Connection :=
  MkConnection (conn_open c) (wire c) (mu c) (user c) (host c) (decoder c) (later c)
    (features c) (password c) (cookie c) (jid c) (callbacks c) (closing c)
    (subscribers c) (iqchans c) h (log c).

Definition add_log (e : event) (c : Connection) : Connection :=
  MkConnection (conn_open c) (wire c) (mu c) (user c) (host c) (decoder c) (later c)
    (features c) (password c) (cookie c) (jid c) (callbacks c) (closing c)
    (subscribers c) (iqchans c) (stchans c) (log c ++ [e]).

Abbreviation conn := (M Connection).

(** *** Primitive effects *)

(** [c.Write(p)], promoted from the embedded [net.Conn].  The model
    records the bytes the program hands to the connection; every caller
    drops the error [Write] returns. *)
Definition Write (p : string) : conn unit :=
  fun c => Ok tt (set_wire (wire c +:+ p) c).

(** [c.Conn.Close()] *)
Definition Conn_Close : conn unit :=
  fun c => Ok tt (set_conn_open false c).

(** [c.Lock()]: the embedded mutex is not reentrant. *)
Definition Lock : conn unit :=
  fun c => if mu c then Blocked c else Ok tt (add_log EvLock (set_mu true c)).

(** [c.Unlock()]: unlocking a free mutex is a fatal error. *)
Definition Unlock : conn unit :=
  fun c => if mu c then Ok tt (add_log EvUnlock (set_mu false c)) else Panic c.

(** [ch <- iq] on a [chan *IQ] *)
Definition chan_send (ch : nat) (iq : IQ) : conn unit :=
  fun c => match iqchans c !! ch with
           | None => Blocked c
           | Some k =>
               if cclosed k then Panic c
               else if chan_ready k
                    then Ok tt (add_log (EvSend ch iq)
                                  (set_iqchans (<[ch := chan_push iq k]> (iqchans c)) c))
                    else Blocked c
           end.

(** [close(ch)] on a [chan *IQ] *)
Definition chan_close (ch : nat) : conn unit :=
  fun c => match iqchans c !! ch with
           | None => Panic c
           | Some k =>
               if cclosed k then Panic c
               else Ok tt (add_log (EvClose ch)
                             (set_iqchans (<[ch := chan_shut k]> (iqchans c)) c))
           end.

(** [select { case ch <- stanza: default: }] on a [chan<- Stanza] *)
Definition try_send (ch : nat) (stanza : Stanza) : conn unit :=
  fun c => match stchans c !! ch with
           | None => Ok tt c
           | Some k =>
               if cclosed k then Panic c
               else if chan_ready k
                    then Ok tt (set_stchans (<[ch := chan_push stanza k]> (stchans c)) c)
                    else Ok tt c
           end.

(** [make(chan Stanza, n)], as a subscriber does before it subscribes *)
Definition make_stchan (n : nat) : conn nat :=
  fun c => let r := fresh (dom (stchans c)) in
           Ok r (set_stchans (<[r := make_chan n]> (stchans c)) c).

(** [reply := make(chan *IQ, 1)] *)
Definition make_iqchan : conn nat :=
  fun c => let r := fresh (dom (iqchans c)) in
           Ok r (set_iqchans (<[r := make_chan 1]> (iqchans c)) c).

Definition get : conn Connection := fun c => Ok c c.

(** *** Subscribers *)

(** [subscribers.send]; the read lock is held by this goroutine alone. *)
Definition send (stanza : Stanza) : conn unit :=
  chans <- (fun c => Ok (subscribers c) c) ;;
  for_each (fun ch => try_send ch stanza) chans.

(** [subscribers.subscribe] *)
Definition subscribe (ch : nat) : conn unit :=
  fun c => Ok tt (set_subscribers (subscribers c ++ [ch]) c).

Definition EmitStanza (stanza : Stanza) : conn unit := send stanza.

Definition SubscribeStanzas (ch : nat) : conn unit := subscribe ch.

Definition JID : conn string := fun c => Ok (jid c) c.

(** *** The id generator *)

Definition uint64_max : N := 2 ^ 64.

(** One round of [generateCookies] met by one [getCookie]: the
    goroutine sends the rendering of [id] on the unbuffered channel and
    then increments its [uint64]. *)
Definition getCookie : conn string :=
  fun c => Ok (Sprintf_d (cookie c))
              (set_cookie ((cookie c + 1) mod uint64_max)%N c).

(** *** Reading tokens *)

Inductive error : Type :=
| DecoderError                       (* what [decoder.Token] returned *)
| UnexpectedMessage (name : string)
| UnsupportedVersion (version : string).

Definition is_stream_end (n : Name) : bool :=
  (Local n =? "stream")%string && (Space n =? nsStream)%string.

(** The loop of [nextStartElement] over what the decoder yields; the
    decoder fails (io.EOF or a syntax error) when nothing is left. *)
Fixpoint nextStartElement_loop (toks : list Token)
  : (option StartElement * option error) * list Token :=
  match toks with
  | [] => ((None, Some DecoderError), [])
  | TStartElement t :: rest => ((Some t, None), rest)
  | TEndElement n :: rest =>
      if is_stream_end n then ((None, None), rest)
      else nextStartElement_loop rest
  | _ :: rest => nextStartElement_loop rest
  end.

Definition nextStartElement : conn (option StartElement * option error) :=
  fun c => let '(r, rest) := nextStartElement_loop (decoder c) in
           Ok r (set_decoder rest c).

(** [c.decoder.Token()] *)
Definition nextToken : conn (option Token * option error) :=
  fun c => match decoder c with
           | [] => Ok (None, Some DecoderError) c
           | t :: rest => Ok (Some t, None) (set_decoder rest c)
           end.

(** *** Decoding an element *)

(** The content of the element whose start tag was just read, up to its
    end tag, and what follows it; [None] when the tokens end before the
    element does, where the decoder fails. *)
Fixpoint element_span (depth : nat) (toks : list Token)
  : option (list Token * list Token) :=
  match toks with
  | [] => None
  | TStartElement t :: rest =>
      match element_span (S depth) rest with
      | Some (inner, after) => Some (TStartElement t :: inner, after)
      | None => None
      end
  | TEndElement n :: rest =>
      match depth with
      | O => Some ([], rest)
      | S d =>
          match element_span d rest with
          | Some (inner, after) => Some (TEndElement n :: inner, after)
          | None => None
          end
      end
  | t :: rest =>
      match element_span depth rest with
      | Some (inner, after) => Some (t :: inner, after)
      | None => None
      end
  end.

(** The field an attribute tag names: the decoder goes through the
    attributes in order and assigns every one whose local name is that
    of the field, so the last one stays; with none the field keeps
    [old]. *)
Fixpoint attr (old : string) (name : string) (l : list Attr) : string :=
  match l with
  | [] => old
  | a :: l' =>
      attr (if (Local (attr_Name a) =? name)%string then attr_Value a else old)
           name l'
  end.

(** Character data directly inside an element. *)
Fixpoint chardata (depth : nat) (toks : list Token) : string :=
  match toks with
  | [] => EmptyString
  | TStartElement _ :: rest => chardata (S depth) rest
  | TEndElement _ :: rest => chardata (pred depth) rest
  | TCharData s :: rest =>
      match depth with
      | O => s +:+ chardata depth rest
      | S _ => chardata depth rest
      end
  | TOther :: rest => chardata depth rest
  end.

(** The loop of the decoder over the children of a struct.  [field]
    unmarshals the child whose start tag was just read into the struct:
    it returns the struct, the number of tokens it has read after the
    start tag, and whether it succeeded.  The loop ends at the end tag
    of the element, or at the first failure, of a field or of the
    decoder: the struct then keeps what was assigned so far and the rest
    of the element is left unread.  [skip] counts the tokens a field has
    read that the loop has still to pass. *)
Fixpoint decode_children {A : Type}
    (field : A -> StartElement -> list Token -> A * nat * bool)
    (skip : nat) (acc : A) (toks : list Token) : A * list Token * bool :=
  match toks with
  | [] => (acc, [], false)
  | tok :: rest =>
      match skip with
      | S k => decode_children field k acc rest
      | O =>
          match tok with
          | TEndElement _ => (acc, rest, true)
          | TStartElement t =>
              let '(acc', n, ok) := field acc t rest in
              if ok : bool then decode_children field n acc' rest
              else (acc', skipn n rest, false)
          | _ => decode_children field 0 acc rest
          end
      end
  end.

(** A field of a basic type: the child is read to its end tag, the
    elements inside it are skipped, and the field is set from the
    character data; [convert] is [copyValue].  When the tokens end
    first, nothing is assigned. *)
Definition read_value {B : Type} (convert : string -> option B) (old : B)
    (toks : list Token) : B * nat * bool :=
  match element_span 0 toks with
  | Some (inner, _) =>
      match convert (chardata 0 inner) with
      | Some v => (v, S (length inner), true)
      | None => (old, S (length inner), false)
      end
  | None => (old, length toks, false)
  end.

Definition read_string : string -> list Token -> string * nat * bool :=
  read_value Some.

(** [copyValue] into an [int], taken to have 64 bits: no data is 0, and
    otherwise the data has to parse once the white space around it is
    cut off. *)
Definition convert_int (data : string) : option Z :=
  match data with
  | EmptyString => Some 0%Z
  | _ => ParseInt (TrimSpace data)
  end.

Definition read_int : Z -> list Token -> Z * nat * bool :=
  read_value convert_int.

(** A field of type [xml.Name]: it is set to the name of the child at
    once, and the child is then read to its end tag. *)
Definition read_Name (t : StartElement) (toks : list Token) : Name * nat * bool :=
  match element_span 0 toks with
  | Some (inner, _) => (se_Name t, S (length inner), true)
  | None => (se_Name t, length toks, false)
  end.

(** [d.Skip()] for a child no field takes. *)
Definition skip_child {A : Type} (acc : A) (toks : list Token) : A * nat * bool :=
  match element_span 0 toks with
  | Some (inner, _) => (acc, S (length inner), true)
  | None => (acc, length toks, false)
  end.

Definition zeroHeader : Header :=
  MkHeader EmptyString EmptyString EmptyString EmptyString.

Definition zeroError : Error :=
  MkError EmptyString EmptyString zeroName EmptyString.

(** The attributes of the embedded [Header]. *)
Definition decode_Header (h : Header) (t : StartElement) : Header :=
  MkHeader (attr (From h) "from" (se_Attr t)) (attr (Id h) "id" (se_Attr t))
           (attr (To h) "to" (se_Attr t)) (attr (Type_ h) "type" (se_Attr t)).

(** The children of an [Error]: [text] goes to [Text], any other child
    to [Any]. *)
Definition Error_field (e : Error) (t : StartElement) (toks : list Token)
  : Error * nat * bool :=
  if (Local (se_Name t) =? "text")%string then
    let '(s, n, ok) := read_string (err_Text e) toks in
    (MkError (err_Code e) (err_Type e) (err_Any e) s, n, ok)
  else
    let '(a, n, ok) := read_Name t toks in
    (MkError (err_Code e) (err_Type e) a (err_Text e), n, ok).

Definition unmarshal_Error (e : Error) (t : StartElement) (toks : list Token)
  : Error * list Token * bool :=
  decode_children Error_field 0
    (MkError (attr (err_Code e) "code" (se_Attr t))
             (attr (err_Type e) "type" (se_Attr t)) (err_Any e) (err_Text e))
    toks.

(** A field of type [*Error]: a nil pointer is made to point to a new
    [Error] first; the child then has to stand in the name space the
    [XMLName] of [Error] asks for, or the decoder fails before it reads
    any of it. *)
Definition read_Error (old : option Error) (t : StartElement) (toks : list Token)
  : option Error * nat * bool :=
  let e := match old with Some e => e | None => zeroError end in
  if (Space (se_Name t) =? nsClient)%string then
    let '(e', rest, ok) := unmarshal_Error e t toks in
    (Some e', length toks - length rest, ok)
  else (Some e, 0, false).

Definition streamError_field (e : streamError) (t : StartElement)
    (toks : list Token) : streamError * nat * bool :=
  if (Local (se_Name t) =? "text")%string then
    let '(s, n, ok) := read_string (se_Text e) toks in
    (MkStreamError (se_Any e) s, n, ok)
  else
    let '(a, n, ok) := read_Name t toks in
    (MkStreamError a (se_Text e), n, ok).

Definition Message_field (m : Message) (t : StartElement) (toks : list Token)
  : Message * nat * bool :=
  let name := Local (se_Name t) in
  if (name =? "subject")%string then
    let '(s, n, ok) := read_string (Subject m) toks in
    (MkMessage (msg_Header m) s (Body m) (Thread m), n, ok)
  else if (name =? "body")%string then
    let '(s, n, ok) := read_string (Body m) toks in
    (MkMessage (msg_Header m) (Subject m) s (Thread m), n, ok)
  else if (name =? "thread")%string then
    let '(s, n, ok) := read_string (Thread m) toks in
    (MkMessage (msg_Header m) (Subject m) (Body m) s, n, ok)
  else skip_child m toks.

Definition Presence_field (p : Presence) (t : StartElement) (toks : list Token)
  : Presence * nat * bool :=
  let name := Local (se_Name t) in
  if (name =? "show")%string then
    let '(s, n, ok) := read_string (Show p) toks in
    (MkPresence (pres_Header p) (Lang p) s (Status p) (Priority p) (pres_Error p),
     n, ok)
  else if (name =? "status")%string then
    let '(s, n, ok) := read_string (Status p) toks in
    (MkPresence (pres_Header p) (Lang p) (Show p) s (Priority p) (pres_Error p),
     n, ok)
  else if (name =? "priority")%string then
    let '(z, n, ok) := read_int (Priority p) toks in
    (MkPresence (pres_Header p) (Lang p) (Show p) (Status p) z (pres_Error p),
     n, ok)
  else if (name =? "error")%string then
    let '(e, n, ok) := read_Error (pres_Error p) t toks in
    (MkPresence (pres_Header p) (Lang p) (Show p) (Status p) (Priority p) e,
     n, ok)
  else skip_child p toks.

Definition IQ_field (iq : IQ) (t : StartElement) (toks : list Token)
  : IQ * nat * bool :=
  let name := Local (se_Name t) in
  if (name =? "error")%string then
    let '(e, n, ok) := read_Error (iq_Error iq) t toks in
    (MkIQ (iq_Header iq) e (Query iq) (Inner iq), n, ok)
  else if (name =? "query")%string then
    let '(q, n, ok) := read_Name t toks in
    (MkIQ (iq_Header iq) (iq_Error iq) q (Inner iq), n, ok)
  else skip_child iq toks.

Definition unmarshal_Presence (p : Presence) (t : StartElement)
    (toks : list Token) : Presence * list Token * bool :=
  decode_children Presence_field 0
    (MkPresence (decode_Header (pres_Header p) t) (attr (Lang p) "lang" (se_Attr t))
       (Show p) (Status p) (Priority p) (pres_Error p))
    toks.

(** The inner XML is assigned last, and only when the element was read
    to its end tag with no failure. *)
Definition unmarshal_IQ (iq : IQ) (t : StartElement) (toks : list Token)
  : IQ * list Token * bool :=
  let '(iq', rest, ok) :=
    decode_children IQ_field 0
      (MkIQ (decode_Header (iq_Header iq) t) (iq_Error iq) (Query iq) (Inner iq))
      toks in
  (if ok : bool
   then MkIQ (iq_Header iq') (iq_Error iq') (Query iq')
          (firstn (length toks - length rest - 1) toks)
   else iq', rest, ok).

(** [c.decoder.DecodeElement(nv, t)]: with a nil [nv] the decoder
    refuses at once and reads nothing; otherwise it fills the struct
    [nv] points to by its field tags, the attributes first and then the
    children in the order they come, up to the end tag of the element or
    to the first failure.  The caller drops the error. *)
Definition DecodeElement (nv : Stanza) (t : StartElement) : conn Stanza :=
  fun c =>
    match nv with
    | SNil => Ok SNil c
    | SStreamError e =>
        let '(e', rest, _) := decode_children streamError_field 0 e (decoder c) in
        Ok (SStreamError e') (set_decoder rest c)
    | SMessage m =>
        let '(m', rest, _) :=
          decode_children Message_field 0
            (MkMessage (decode_Header (msg_Header m) t) (Subject m) (Body m) (Thread m))
            (decoder c) in
        Ok (SMessage m') (set_decoder rest c)
    | SPresence p =>
        let '(p', rest, _) := unmarshal_Presence p t (decoder c) in
        Ok (SPresence p') (set_decoder rest c)
    | SIQ iq =>
        let '(iq', rest, _) := unmarshal_IQ iq t (decoder c) in
        Ok (SIQ iq') (set_decoder rest c)
    | SError e =>
        let '(e', rest, _) := unmarshal_Error e t (decoder c) in
        Ok (SError e') (set_decoder rest c)
    | SAuthorizationRequest p =>
        let '(p', rest, _) := unmarshal_Presence p t (decoder c) in
        Ok (SAuthorizationRequest p') (set_decoder rest c)
    end.

(** *** Closing *)

Definition Close : conn unit :=
  c <- get ;;
  if closing c then
    (* Terminate TCP connection *)
    Conn_Close
  else
    Write "</stream:stream>" ;;;
    (fun c => Ok tt (set_closing true c)).

(** *** The router *)

(** The [switch] of [read] on the element name: the fresh struct [nv]
    points to, or nil for an unknown name (whose local name the code
    prints on standard output, which the model leaves out). *)
Definition new_stanza (t : StartElement) : Stanza :=
  let key := Space (se_Name t) +:+ " " +:+ Local (se_Name t) in
  if (key =? nsStream +:+ " error")%string then
    SStreamError (MkStreamError zeroName EmptyString)
  else if (key =? nsClient +:+ " message")%string then
    SMessage (MkMessage zeroHeader EmptyString EmptyString EmptyString)
  else if (key =? nsClient +:+ " presence")%string then
    SPresence (MkPresence zeroHeader EmptyString EmptyString EmptyString 0 None)
  else if (key =? nsClient +:+ " iq")%string then
    SIQ (MkIQ zeroHeader None zeroName [])
  else if (key =? nsClient +:+ " error")%string then
    SError zeroError
  else SNil.

Definition delete_callback (id : string) : conn unit :=
  fun c => Ok tt (add_log (EvDelete id) (set_callbacks (delete id (callbacks c)) c)).

(** What [read] does with the decoded value. *)
Definition dispatch (nv : Stanza) : conn unit :=
  match nv with
  | SIQ iq =>
      if (Type_ (iq_Header iq) =? "result")%string
         || (Type_ (iq_Header iq) =? "error")%string
      then
        Lock ;;;
        (c <- get ;;
         match callbacks c !! ID nv with
         | Some ch => chan_send ch iq ;;; delete_callback (ID nv)
         | None => ret tt
         end) ;;;
        Unlock
      else send nv
  | _ => send nv
  end.

(** The channels of the callback table, in the order the [range] over
    the map visits them.  Go leaves that order open; the model takes the
    order of [map_to_list], and closing distinct channels ends in the
    same store whatever the order. *)
Definition callback_chans (c : Connection) : list nat :=
  snd <$> map_to_list (callbacks c).

(** One turn of the loop of [read]; [false] when [read] returns. *)
Definition read_iter : conn bool :=
  r <- nextStartElement ;;
  match fst r with
  | None =>
      Lock ;;;
      (c <- get ;; for_each chan_close (callback_chans c)) ;;;
      Close ;;;
      ret false
  | Some t =>
      nv <- DecodeElement (new_stanza t) t ;;
      dispatch nv ;;;
      ret true
  end.

Fixpoint read_loop (fuel : nat) (c : Connection)
  : option (outcome Connection unit) :=
  match fuel with
  | O => None
  | S n =>
      match read_iter c with
      | Ok true c' => read_loop n c'
      | Ok false c' => Some (Ok tt c')
      | Panic c' => Some (Panic c')
      | Blocked c' => Some (Blocked c')
      end
  end.

(** [read].  Every turn that goes on has taken a token from the
    decoder, so one turn more than there are tokens is fuel enough;
    [None] would mean the fuel ran out, and never happens. *)
Definition read (c : Connection) : option (outcome Connection unit) :=
  read_loop (S (length (decoder c))) c.

(** *** Negotiation *)

(** [reset].  The decoder is replaced by a new one over the same
    connection.  The new decoder knows of no element the old one has
    seen opened, and what the old one had taken from the connection
    without yielding it is gone with it; what the new one will yield is
    therefore not a function of what the old one had left, and the
    model takes it from [later]. *)
Definition reset : conn unit :=
  fun c => Ok tt (set_features []
                    (set_later (tl (later c)) (set_decoder (hd [] (later c)) c))).

Definition nil_dereference {A} : conn A := fun c => Panic c.

Definition sasl : conn unit :=
  c <- get ;;
  let payload := str1 NUL +:+ user c +:+ str1 NUL +:+ password c in
  let payloadb64 := EncodeToString payload in
  Write ("<auth xmlns='urn:ietf:params:xml:ns:xmpp-sasl' mechanism='PLAIN'>"
           +:+ payloadb64 +:+ "</auth>") ;;;
  r <- nextStartElement ;;
  match fst r with
  | None => nil_dereference
  | Some t =>
      if (Local (se_Name t) =? "success")%string then reset else ret tt
  end.

Definition openStream : conn unit :=
  c <- get ;;
  Write ("<?xml version='1.0' encoding='UTF-8'?><stream:stream from='"
           +:+ user c +:+ "@" +:+ host c +:+ "' to='" +:+ host c
           +:+ "' version='1.0' xml:lang='en' xmlns='jabber:client' xmlns:stream='http://etherx.jabber.org/streams'>").

(** The [for ... range t.Attr] of [receiveStream]. *)
Fixpoint stream_version (version : string) (attrs : list Attr) : string :=
  match attrs with
  | [] => version
  | a :: rest =>
      if (Local (attr_Name a) =? "version")%string
      then stream_version (attr_Value a) rest
      else stream_version version rest
  end.

Definition receiveStream : conn (option error) :=
  r <- nextStartElement ;;
  match snd r with
  | Some err => ret (Some err)
  | None =>
      match fst r with
      | None => nil_dereference
      | Some t =>
          if negb (Local (se_Name t) =? "stream")%string then
            ret (Some (UnexpectedMessage (Local (se_Name t))))
          else if negb (Space (se_Name t) =? "http://etherx.jabber.org/streams")%string then
            Write "<stream:error><invalid-namespace xmlns='urn:ietf:params:xml:ns:xmpp-streams'/>" ;;;
            Close ;;;
            ret None
          else
            let version := stream_version EmptyString (se_Attr t) in
            if (version =? EmptyString)%string then
              ret (Some (UnsupportedVersion "0.9"))
            else
              match Split version "." with
              | [] => nil_dereference
              | part0 :: _ =>
                  if negb (part0 =? "1")%string then
                    ret (Some (UnsupportedVersion version))
                  else ret None
              end
      end
  end.

(** *** Escaping *)

Definition xmlSpecial : gmap ascii string :=
  list_to_map [("<"%char, "&lt;"%string);
               (">"%char, "&gt;"%string);
               (quote, "&quot;"%string);
               (apos, "&apos;"%string);
               ("&"%char, "&amp;"%string)].

(** The loop of [xmlEscape]; [b] is the [bytes.Buffer]. *)
Fixpoint xmlEscape_loop (s : string) (b : string) : string :=
  match s with
  | EmptyString => b
  | String c s' =>
      match xmlSpecial !! c with
      | Some e => xmlEscape_loop s' (b +:+ e)
      | None => xmlEscape_loop s' (b +:+ str1 c)
      end
  end.

Definition xmlEscape (s : string) : string := xmlEscape_loop s EmptyString.

(** *** Sending *)

(** [xml.NewEncoder(c).Encode(value)]: a value is given with the bytes
    the encoder produces for it; the nil interface value encodes to
    nothing. *)
Definition Encode (value : option string) : conn unit :=
  match value with
  | Some bytes => Write bytes
  | None => ret tt
  end.

Definition toAttr_of (to : string) : string :=
  if (0 <? String.length to)%nat then "to='" +:+ xmlEscape to +:+ "'"
  else EmptyString.

Definition iq_start (toAttr from typ id : string) : string :=
  "<iq " +:+ toAttr +:+ " from='" +:+ from +:+ "' type='" +:+ typ
    +:+ "' id='" +:+ id +:+ "'>".

Definition SendIQ (to typ : string) (value : option string)
  : conn (nat * string) :=
  cookie <- getCookie ;;
  reply <- make_iqchan ;;
  Lock ;;;
  (fun c => Ok tt (add_log (EvInsert cookie reply)
                     (set_callbacks (<[cookie := reply]> (callbacks c)) c))) ;;;
  Unlock ;;;
  let toAttr := toAttr_of to in
  c <- get ;;
  Write (iq_start toAttr (xmlEscape (jid c)) (xmlEscape typ) cookie) ;;;
  Encode value ;;;
  Write "</iq>" ;;;
  ret (reply, cookie).

Definition SendIQReply (to typ id : string) (value : option string)
  : conn unit :=
  let toAttr := toAttr_of to in
  c <- get ;;
  Write (iq_start toAttr (xmlEscape (jid c)) (xmlEscape typ) id) ;;;
  match value with
  | Some _ => Encode value
  | None => ret tt
  end ;;;
  Write "</iq>".

(** *** Mechanisms *)

Definition SupportedMechanisms : list string := ["PLAIN"].

(** The inner loop of [findCompatibleMechanism]: [our] is among
    [theirs]. *)
Fixpoint among (our : string) (theirs : list string) : bool :=
  match theirs with
  | [] => false
  | their :: rest => if (our =? their)%string then true else among our rest
  end.

Fixpoint findCompatibleMechanism (ours theirs : list string) : string :=
  match ours with
  | [] => EmptyString
  | our :: rest =>
      if among our theirs then our else findCompatibleMechanism rest theirs
  end.

(** *** Binding *)

Definition set_jid (j : string) (c : Connection) : Connection :=
  MkConnection (conn_open c) (wire c) (mu c) (user c) (host c) (decoder c) (later c)
    (features c) (password c) (cookie c) j (callbacks c) (closing c)
    (subscribers c) (iqchans c) (stchans c) (log c).

(** [<-ch] on a [chan *IQ]: the oldest value the channel holds; the nil
    pointer once the channel is closed and empty; otherwise the receiver
    waits. *)
Definition chan_recv (ch : nat) : conn (option IQ) :=
  fun c => match iqchans c !! ch with
           | None => Blocked c
           | Some k =>
               match cbuf k with
               | iq :: rest =>
                   Ok (Some iq)
                      (set_iqchans (<[ch := MkChan (ccap k) rest (cclosed k)]>
                                      (iqchans c)) c)
               | [] => if cclosed k then Ok None c else Blocked c
               end
           end.

(** What the encoder writes for the empty struct named [bind]. *)
Definition bind_request : string :=
  "<bind xmlns=" +:+ str1 quote +:+ nsBind +:+ str1 quote +:+ "></bind>".

(** [Connection_bind] from its second statement on: the wait for the
    response.  [Unmarshal_JID] stands for
    [xml.Unmarshal(response.Inner, &bind)] followed by [bind.JID]: the
    library parses the bytes of the inner XML afresh, outside the
    name-space declarations that enclosed them on the stream, so what it
    finds is not determined by the tokens the router has read; it is the
    empty string when the library fails. *)
Definition bind_await (Unmarshal_JID : IQ -> string) (ch : nat) : conn unit :=
  response <- chan_recv ch ;;
  match response with
  | None => nil_dereference
  | Some iq => fun c => Ok tt (set_jid (Unmarshal_JID iq) c)
  end.

(** The method [bind] of the connection (the plain name is taken by the
    monad).  The router is another goroutine: run on its own, with no
    turn of the router between the request and the wait, it waits for
    ever. *)
Definition Connection_bind (Unmarshal_JID : IQ -> string) : conn unit :=
  r <- SendIQ EmptyString "set" (Some bind_request) ;;
  bind_await Unmarshal_JID (fst r).

(** The struct literal of [Dial], over a connection whose first decoder
    will yield [tokens] and that has nothing for a later one: the
    generator starts at 0 and there is no callback yet. *)
Definition new_Connection (user host password : string) (tokens : list Token)
  : Connection :=
  MkConnection true EmptyString false user host tokens [] [] password 0
    EmptyString ∅ false [] ∅ ∅ [].

End rfc6120.

Module rfc6121.

(** The methods of [rfc6120.Client] this package calls, as an interface
    over the state [C] of whatever implements it. *)
Class Client (C : Type) : Type := {
  SendIQ : string -> string -> option string -> M C (nat * string);
  SendIQReply : string -> string -> string -> option string -> M C unit;
  EmitStanza : rfc6120.Stanza -> M C unit;
  SubscribeStanzas : nat -> M C unit;
  JID : M C string;
  Close : M C unit
}.

#[global] Instance Connection_Client : Client rfc6120.Connection := {
  SendIQ := rfc6120.SendIQ;
  SendIQReply := rfc6120.SendIQReply;
  EmitStanza := rfc6120.EmitStanza;
  SubscribeStanzas := rfc6120.SubscribeStanzas;
  JID := rfc6120.JID;
  Close := rfc6120.Close
}.

Section read.
Context {C : Type} `{Client C}.

(** The body of the [for stanza := range c.stanzas] of [read]. *)
Definition read_stanza (stanza : rfc6120.Stanza) : M C unit :=
  match stanza with
  | rfc6120.SIQ t =>
      if (Space (rfc6120.Query t) =? "jabber:iq:roster")%string
         && (rfc6120.Type_ (rfc6120.iq_Header t) =? "set")%string
      then SendIQReply EmptyString "result" (rfc6120.ID stanza) None
      else ret tt
  | rfc6120.SPresence t =>
      if (rfc6120.Type_ (rfc6120.pres_Header t) =? "subscribe")%string
      then EmitStanza (rfc6120.SAuthorizationRequest t)
      else ret tt
  | _ => ret tt
  end.

(** [read] over the stanzas its channel yields until it is closed. *)
Definition read (yielded : list rfc6120.Stanza) : M C unit :=
  for_each read_stanza yielded.
End read.

End rfc6121.

(** ** Vocabulary of the properties *)

Module Spec.
Import rfc6120.

(** *** Base 64, as RFC 4648 words it *)

(** The standard base 64 encoding the specification names, written from
    section 4 of RFC 4648 and not from the code.  The eight bits of an
    octet, most significant first. *)
Definition bits_of_octet (c : ascii) : list bool :=
  match c with
  | Ascii b0 b1 b2 b3 b4 b5 b6 b7 => [b7; b6; b5; b4; b3; b2; b1; b0]
  end.

(** The input as one stream of bits, ordered from the left. *)
Definition bit_stream (src : list ascii) : list bool :=
  flat_map bits_of_octet src.

(** The stream cut into groups of six bits; the last group is filled up
    with zero bits on the right. *)
Fixpoint sextets (bits : list bool) : list (list bool) :=
  match bits with
  | [] => []
  | b1 :: b2 :: b3 :: b4 :: b5 :: b6 :: rest =>
      [b1; b2; b3; b4; b5; b6] :: sextets rest
  | short => [short ++ repeat false (6 - length short)]
  end.

(** The number a group of bits denotes, most significant bit first. *)
Definition bits_value (bits : list bool) : N :=
  fold_left (fun acc (b : bool) => (2 * acc + (if b then 1 else 0))%N) bits 0%N.

(** Table 1 of RFC 4648: 0 to 25 are A to Z, 26 to 51 are a to z,
    52 to 61 are the digits, 62 is the plus sign and 63 the solidus. *)
Definition base64_alphabet (v : N) : ascii :=
  if (v <? 26)%N then ascii_of_N (65 + v)
  else if (v <? 52)%N then ascii_of_N (97 + (v - 26))
  else if (v <? 62)%N then ascii_of_N (48 + (v - 52))
  else if (v =? 62)%N then "+"%char
  else "/"%char.

(** The output is filled up with equals signs to a multiple of four
    characters. *)
Definition pad_to_4 (cs : list ascii) : list ascii :=
  cs ++ repeat "="%char ((4 - length cs mod 4) mod 4).

Definition base64_standard (src : list ascii) : list ascii :=
  pad_to_4 (map (fun g => base64_alphabet (bits_value g)) (sextets (bit_stream src))).

Definition Base64 (s : string) : string :=
  string_of_list_ascii (base64_standard (list_ascii_of_string s)).

(** *** Escaping, as the specification words it *)

Definition ampersand : ascii := ascii_of_nat 38.
Definition less : ascii := ascii_of_nat 60.
Definition greater : ascii := ascii_of_nat 62.

(** Each of the five special bytes becomes its named entity and every
    other byte stays. *)
Definition entity_of (c : ascii) : string :=
  if Ascii.eqb c less then "&lt;"
  else if Ascii.eqb c greater then "&gt;"
  else if Ascii.eqb c quote then "&quot;"
  else if Ascii.eqb c apos then "&apos;"
  else if Ascii.eqb c ampersand then "&amp;"
  else str1 c.

Fixpoint escape_spec (s : string) : string :=
  match s with
  | EmptyString => EmptyString
  | String c s' => entity_of c +:+ escape_spec s'
  end.

(** [s] begins with [p]. *)
Fixpoint starts_with (p s : string) : bool :=
  match p with
  | EmptyString => true
  | String a p' =>
      match s with
      | EmptyString => false
      | String b s' => Ascii.eqb a b && starts_with p' s'
      end
  end.

(** The entity that starts right after an ampersand, with the number of
    bytes it takes. *)
Definition entity_at (s : string) : option (ascii * nat) :=
  if starts_with "lt;" s then Some (less, 3)
  else if starts_with "gt;" s then Some (greater, 3)
  else if starts_with "quot;" s then Some (quote, 5)
  else if starts_with "apos;" s then Some (apos, 5)
  else if starts_with "amp;" s then Some (ampersand, 4)
  else None.

(** Modelled from the spec: un-escaping is left to the decoder of
    encoding/xml and is not among the sources; the spec names it as the
    inverse of escaping, so each of the five named entities is read back
    as its byte and everything else is kept. *)
Fixpoint xmlUnescape_go (skip : nat) (s : string) : string :=
  match s with
  | EmptyString => EmptyString
  | String c s' =>
      match skip with
      | S k => xmlUnescape_go k s'
      | O =>
          if Ascii.eqb c ampersand then
            match entity_at s' with
            | Some (x, n) => String x (xmlUnescape_go n s')
            | None => String c (xmlUnescape_go 0 s')
            end
          else String c (xmlUnescape_go 0 s')
      end
  end.

Definition xmlUnescape (s : string) : string := xmlUnescape_go 0 s.

(** *** The attributes of a start tag *)

(** A reader of start tags after the grammar of XML 1.0,
    [STag ::= '<' Name (S Attribute)* S? '>'] and
    [Attribute ::= Name S? '=' S? AttValue], for names of ASCII letters,
    digits, underscore, colon, hyphen and full stop.  A text outside
    this grammar is refused: the element name must end where white space
    or the end of the tag begins, white space must stand before every
    attribute, a value holds no [<], an ampersand in a value must begin
    one of the five named entities, and no name occurs twice.  The
    values are returned as they stand between their quotes, references
    not yet resolved. *)
Inductive scan_mode : Type :=
| AfterValue                     (* after the element name or a value *)
| InTag                          (* after white space, between attributes *)
| Closing                        (* after the solidus of an empty element *)
| InName (n : string)            (* reading a name *)
| BeforeEquals (n : string)      (* white space after a name *)
| AtValue (n : string)           (* after the equals sign *)
| InValue (n : string) (q : ascii) (v : string).  (* inside the quotes *)

Definition space : ascii := ascii_of_nat 32.
Definition equals : ascii := ascii_of_nat 61.
Definition solidus : ascii := ascii_of_nat 47.

Definition is_space (c : ascii) : bool :=
  Ascii.eqb c space || Ascii.eqb c (ascii_of_nat 9)
  || Ascii.eqb c (ascii_of_nat 10) || Ascii.eqb c (ascii_of_nat 13).

Definition between (lo hi : N) (c : ascii) : bool :=
  ((lo <=? N_of_ascii c) && (N_of_ascii c <=? hi))%N.

Definition is_name_start (c : ascii) : bool :=
  between 65 90 c || between 97 122 c
  || Ascii.eqb c (ascii_of_nat 95) || Ascii.eqb c (ascii_of_nat 58).

Definition is_name_char (c : ascii) : bool :=
  is_name_start c || between 48 57 c
  || Ascii.eqb c (ascii_of_nat 45) || Ascii.eqb c (ascii_of_nat 46).

Fixpoint distinct (names : list string) : bool :=
  match names with
  | [] => true
  | n :: rest => negb (existsb (String.eqb n) rest) && distinct rest
  end.

(** The end of the tag: the attributes read, unless a name is there
    twice. *)
Definition close_tag (acc : list (string * string))
  : option (list (string * string)) :=
  if distinct (map fst acc) then Some acc else None.

(** The attributes an XML reader finds in a start tag, in order; [None]
    when the text is not a start tag. *)
Fixpoint scan_attrs (m : scan_mode) (acc : list (string * string)) (s : string)
  : option (list (string * string)) :=
  match s with
  | EmptyString => None
  | String c s' =>
      match m with
      | AfterValue =>
          if is_space c then scan_attrs InTag acc s'
          else if Ascii.eqb c greater then close_tag acc
          else if Ascii.eqb c solidus then scan_attrs Closing acc s'
          else None
      | InTag =>
          if is_space c then scan_attrs InTag acc s'
          else if Ascii.eqb c greater then close_tag acc
          else if Ascii.eqb c solidus then scan_attrs Closing acc s'
          else if is_name_start c then scan_attrs (InName (str1 c)) acc s'
          else None
      | Closing =>
          if Ascii.eqb c greater then close_tag acc else None
      | InName n =>
          if is_name_char c then scan_attrs (InName (n +:+ str1 c)) acc s'
          else if Ascii.eqb c equals then scan_attrs (AtValue n) acc s'
          else if is_space c then scan_attrs (BeforeEquals n) acc s'
          else None
      | BeforeEquals n =>
          if is_space c then scan_attrs (BeforeEquals n) acc s'
          else if Ascii.eqb c equals then scan_attrs (AtValue n) acc s'
          else None
      | AtValue n =>
          if is_space c then scan_attrs (AtValue n) acc s'
          else if Ascii.eqb c apos || Ascii.eqb c quote
          then scan_attrs (InValue n c EmptyString) acc s'
          else None
      | InValue n q v =>
          if Ascii.eqb c q then scan_attrs AfterValue (acc ++ [(n, v)]) s'
          else if Ascii.eqb c less then None
          else if Ascii.eqb c ampersand then
            match entity_at s' with
            | Some _ => scan_attrs (InValue n q (v +:+ str1 c)) acc s'
            | None => None
            end
          else scan_attrs (InValue n q (v +:+ str1 c)) acc s'
      end
  end.

(** The attributes of the [<iq ...>] start tag a text begins with. *)
Definition iq_attrs (s : string) : option (list (string * string)) :=
  match s with
  | String c1 (String c2 (String c3 rest)) =>
      if (String c1 (String c2 (String c3 EmptyString)) =? "<iq")%string
      then scan_attrs AfterValue [] rest
      else None
  | _ => None
  end.

(** The byte [c] occurs in [s]. *)
Fixpoint has_byte (c : ascii) (s : string) : bool :=
  match s with
  | EmptyString => false
  | String x s' => Ascii.eqb x c || has_byte c s'
  end.

Definition has_attr (name : string) (attrs : list (string * string)) : bool :=
  existsb (fun a => (fst a =? name)%string) attrs.

(** *** The callback table *)

(** What [SendIQ] establishes for every entry of the table: its channel
    is the fresh one-place channel made for it, still open and empty,
    and no two entries share a channel. *)
Definition table_ok (cb : gmap string nat) (h : gmap nat (chan IQ)) : Prop :=
  (forall id ch, cb !! id = Some ch -> h !! ch = Some (make_chan 1))
  /\ (forall id1 id2 ch, cb !! id1 = Some ch -> cb !! id2 = Some ch -> id1 = id2).

Definition callbacks_ok (c : Connection) : Prop :=
  table_ok (callbacks c) (iqchans c).

(** The connection once the router has put [iq] in the slot [ch] and
    removed the entry of its id, in the order [read] does it. *)
Definition delivered (c : Connection) (iq : IQ) (ch : nat) : Connection :=
  add_log EvUnlock
    (set_mu false
       (add_log (EvDelete (Id (iq_Header iq)))
          (set_callbacks (delete (Id (iq_Header iq)) (callbacks c))
             (add_log (EvSend ch iq)
                (set_iqchans (<[ch := chan_push iq (make_chan 1)]> (iqchans c))
                   (add_log EvLock (set_mu true c))))))).

(** The states of a session: what [Dial] builds, and what the calls of
    the API and the turns of the router that go on make of it. *)
Inductive session : Connection -> Prop :=
| session_Dial u h p toks : session (new_Connection u h p toks)
| session_SendIQ c to typ value r c' :
    session c -> SendIQ to typ value c = Ok r c' -> session c'
| session_SendIQReply c to typ id value c' :
    session c -> SendIQReply to typ id value c = Ok tt c' -> session c'
| session_make_stchan c n r c' :
    session c -> make_stchan n c = Ok r c' -> session c'
| session_SubscribeStanzas c ch c' :
    session c -> SubscribeStanzas ch c = Ok tt c' -> session c'
| session_EmitStanza c stanza c' :
    session c -> EmitStanza stanza c = Ok tt c' -> session c'
| session_Close c c' :
    session c -> Close c = Ok tt c' -> session c'
| session_read_turn c c' :
    session c -> read_iter c = Ok true c' -> session c'.

Definition is_send (ch : nat) (e : event) : bool :=
  match e with EvSend ch' _ => Nat.eqb ch ch' | _ => false end.

Definition is_delete (id : string) (e : event) : bool :=
  match e with EvDelete id' => (id =? id')%string | _ => false end.

(** Some event satisfying [p] comes before some event satisfying [q]. *)
Fixpoint precedes (p q : event -> bool) (l : list event) : bool :=
  match l with
  | [] => false
  | e :: l' => (p e && existsb q l') || precedes p q l'
  end.

(** What one call has added to the log. *)
Definition logged (c c' : Connection) : list event :=
  drop (length (log c)) (log c').

(** *** End of stream *)

(** The decoder is at the end of the stream: before any start element
    it yields the closing tag of the stream, or fails. *)
Inductive end_of_stream : list Token -> Prop :=
| eos_error : end_of_stream []
| eos_closing_tag n rest :
    is_stream_end n = true -> end_of_stream (TEndElement n :: rest)
| eos_end_element n rest :
    is_stream_end n = false -> end_of_stream rest ->
    end_of_stream (TEndElement n :: rest)
| eos_chardata s rest : end_of_stream rest -> end_of_stream (TCharData s :: rest)
| eos_other rest : end_of_stream rest -> end_of_stream (TOther :: rest).

(** *** The stream version *)

(** The major component of a version: what stands before its first dot. *)
Fixpoint major (v : string) : string :=
  match v with
  | EmptyString => EmptyString
  | String c v' => if Ascii.eqb c "." then EmptyString else String c (major v')
  end.

(** *** The id generator *)

(** The connection after [n] ids have been handed out. *)
Definition after_cookies (n : N) (c : Connection) : Connection :=
  N.iter n (fun s => final (getCookie s)) c.

(** The id handed out after [n] earlier ones. *)
Definition nth_cookie (n : N) (c : Connection) : string :=
  match getCookie (after_cookies n c) with
  | Ok id _ => id
  | _ => EmptyString
  end.

(** *** What the router skips *)

(** A token [nextStartElement] reads over: anything but a start element
    and the closing tag of the stream. *)
Definition read_over (t : Token) : bool :=
  match t with
  | TStartElement _ => false
  | TEndElement n => negb (is_stream_end n)
  | TCharData _ | TOther => true
  end.

(** A stanza the router correlates: an IQ of type result or error. *)
Definition is_iq_response (nv : Stanza) : bool :=
  match nv with
  | SIQ iq => (Type_ (iq_Header iq) =? "result")%string
              || (Type_ (iq_Header iq) =? "error")%string
  | _ => false
  end.

(** A roster push, as the roster layer recognises it. *)
Definition is_roster_push (nv : Stanza) : bool :=
  match nv with
  | SIQ iq => (Space (Query iq) =? "jabber:iq:roster")%string
              && (Type_ (iq_Header iq) =? "set")%string
  | _ => false
  end.

(** The request [sasl] writes. *)
Definition auth_element (c : Connection) : string :=
  "<auth xmlns='urn:ietf:params:xml:ns:xmpp-sasl' mechanism='PLAIN'>"
    +:+ EncodeToString (str1 NUL +:+ user c +:+ str1 NUL +:+ password c)
    +:+ "</auth>".

(** One of the five bytes [xmlEscape] replaces. *)
Definition is_special (c : ascii) : bool :=
  Ascii.eqb c less || Ascii.eqb c greater || Ascii.eqb c quote
  || Ascii.eqb c apos || Ascii.eqb c ampersand.

Fixpoint has_special (s : string) : bool :=
  match s with
  | EmptyString => false
  | String c s' => is_special c || has_special s'
  end.



(** [n] calls of [Close] in a row. *)
Fixpoint Close_times (n : nat) : M Connection unit :=
  match n with
  | O => ret tt
  | S n' => Close ;;; Close_times n'
  end.

(** *** Fan-out *)

(** A sink after [n] attempts to send [v] to it: it takes as many as it
    has room for. *)
Definition chan_fill {A} (v : A) (n : nat) (k : chan A) : chan A :=
  MkChan (ccap k) (cbuf k ++ repeat v (min n (chan_room k))) (cclosed k).

Definition occurrences (ch : nat) (l : list nat) : nat :=
  count_occ Nat.eq_dec l ch.

End Spec.

(** ** Sessions and stanzas used as examples *)

Module Examples.
Import rfc6120.

Definition alice (tokens : list Token) : Connection :=
  new_Connection "alice" "example.org" "s3cret" tokens.

(** The opener of a server that announces [version]. *)
Definition opener (version : string) : StartElement :=
  MkStart (MkName nsStream "stream")
          [MkAttr (MkName EmptyString "to") "alice@example.org";
           MkAttr (MkName EmptyString "version") version].

(** A session in which one [SendIQ], with id 0, awaits its response. *)
Definition waiting : Connection :=
  set_iqchans {[0 := make_chan 1]} (set_callbacks {["0" := 0]} (alice [])).

(** The response to it. *)
Definition result0 : IQ :=
  MkIQ (MkHeader "example.org" "0" "alice@example.org/abc" "result")
       None zeroName [].

(** An id that closes its own quotes and goes on. *)
Definition forged_id : string := "1' to='mallory@example.net".

(** The tokens of that response on the wire, followed by the end of the
    stream. *)
Definition result0_tokens : list Token :=
  [TStartElement
     (MkStart (MkName nsClient "iq")
        [MkAttr (MkName EmptyString "from") "example.org";
         MkAttr (MkName EmptyString "id") "0";
         MkAttr (MkName EmptyString "to") "alice@example.org/abc";
         MkAttr (MkName EmptyString "type") "result"]);
   TEndElement (MkName nsClient "iq");
   TEndElement (MkName nsStream "stream")].

(** The response to a second request, of id 1. *)
Definition result1 : IQ :=
  MkIQ (MkHeader "example.org" "1" "alice@example.org/abc" "error")
       None zeroName [].

(** A roster push whose id is [forged_id]. *)
Definition forged_push : IQ :=
  MkIQ (MkHeader EmptyString forged_id EmptyString "set") None
       (MkName "jabber:iq:roster" "query") [].

(** A roster push. *)
Definition push1 : IQ :=
  MkIQ (MkHeader EmptyString "push-1" EmptyString "set") None
       (MkName "jabber:iq:roster" "query") [].

(** Three sinks: an empty one of one place, a full one, and one of two
    places subscribed twice. *)
Definition three_sinks : Connection :=
  set_subscribers [0; 1; 2; 2]
    (set_stchans {[0 := make_chan 1;
                   1 := MkChan 1 [SNil] false;
                   2 := make_chan 2]} (alice [])).

End Examples.

Import rfc6120 Spec Examples.

(** * Escaping *)

Lemma xmlSpecial_lookup (c : ascii) :
  xmlSpecial !! c =
  if Ascii.eqb c less then Some "&lt;"%string
  else if Ascii.eqb c greater then Some "&gt;"%string
  else if Ascii.eqb c quote then Some "&quot;"%string
  else if Ascii.eqb c apos then Some "&apos;"%string
  else if Ascii.eqb c ampersand then Some "&amp;"%string
  else None.
Proof.
  destruct c as [[] [] [] [] [] [] [] []]; vm_compute; reflexivity.
Qed.

(** [simpl] leaves [String.append] alone once stdpp is loaded; these
    equations are used for rewriting instead. *)
Lemma append_cons (x : ascii) (a b : string) :
  String x a +:+ b = String x (a +:+ b).
Proof. reflexivity. Qed.

Lemma append_nil_l (a : string) : EmptyString +:+ a = a.
Proof. reflexivity. Qed.

Lemma append_nil_r (a : string) : a +:+ EmptyString = a.
Proof.
  induction a as [|x a IH]; [reflexivity|].
  rewrite append_cons. f_equal. exact IH.
Qed.

Lemma append_assoc (a b c : string) : (a +:+ b) +:+ c = a +:+ (b +:+ c).
Proof.
  induction a as [|x a IH]; [reflexivity|].
  rewrite !append_cons. f_equal. exact IH.
Qed.

Create Rewrite HintDb str.
#[local] Hint Rewrite append_cons append_nil_l append_nil_r append_assoc : str.

(** What the loop does to one byte is what the specification says. *)
Lemma xmlEscape_byte (c : ascii) :
  match xmlSpecial !! c with Some e => e | None => str1 c end = entity_of c.
Proof.
  rewrite xmlSpecial_lookup. unfold entity_of.
  repeat match goal with |- context [Ascii.eqb c ?x] => destruct (Ascii.eqb c x) end;
    reflexivity.
Qed.

Lemma xmlEscape_loop_spec (s b : string) :
  xmlEscape_loop s b = b +:+ escape_spec s.
Proof.
  revert b. induction s as [|c s IH]; intros b; simpl.
  - now rewrite append_nil_r.
  - pose proof (xmlEscape_byte c) as Hc.
    destruct (xmlSpecial !! c); rewrite IH, append_assoc, Hc; reflexivity.
Qed.

Lemma xmlEscape_spec (s : string) : xmlEscape s = escape_spec s.
Proof. unfold xmlEscape. now rewrite xmlEscape_loop_spec. Qed.

Lemma xmlUnescape_entity (c : ascii) (rest : string) :
  xmlUnescape_go 0 (entity_of c +:+ rest) = String c (xmlUnescape_go 0 rest).
Proof.
  unfold entity_of.
  destruct (Ascii.eqb c less) eqn:E1; [apply Ascii.eqb_eq in E1; subst; reflexivity|].
  destruct (Ascii.eqb c greater) eqn:E2; [apply Ascii.eqb_eq in E2; subst; reflexivity|].
  destruct (Ascii.eqb c quote) eqn:E3; [apply Ascii.eqb_eq in E3; subst; reflexivity|].
  destruct (Ascii.eqb c apos) eqn:E4; [apply Ascii.eqb_eq in E4; subst; reflexivity|].
  destruct (Ascii.eqb c ampersand) eqn:E5; [apply Ascii.eqb_eq in E5; subst; reflexivity|].
  unfold str1. rewrite append_cons, append_nil_l. simpl. now rewrite E5.
Qed.

Lemma xmlUnescape_escape_spec (s : string) : xmlUnescape (escape_spec s) = s.
Proof.
  unfold xmlUnescape. induction s as [|c s IH]; simpl; [reflexivity|].
  rewrite xmlUnescape_entity. f_equal. exact IH.
Qed.

(** C8. For every string, [xmlEscape] returns the string in which each
    of the five special bytes is replaced by its named entity and every
    other byte is kept, and un-escaping that result gives the string
    back. *)
Theorem xmlEscape_replaces_and_roundtrips (s : string) :
  xmlEscape s = escape_spec s /\ xmlUnescape (xmlEscape s) = s.
Proof.
  split; [apply xmlEscape_spec|].
  rewrite xmlEscape_spec. apply xmlUnescape_escape_spec.
Qed.

(** * Closing *)

(** C4. The first call of [Close] writes the closing tag of the stream,
    sets [closing] and leaves the TCP connection as it is; any call made
    once [closing] is set closes the TCP connection and writes nothing. *)
Theorem Close_first_then_subsequent (c : Connection) (Hfirst : closing c = false) :
  exists c1,
    Close c = Ok tt c1
    /\ wire c1 = wire c +:+ "</stream:stream>"
    /\ closing c1 = true
    /\ conn_open c1 = conn_open c
    /\ forall c', closing c' = true ->
         exists c2, Close c' = Ok tt c2
                    /\ conn_open c2 = false
                    /\ wire c2 = wire c'
                    /\ closing c2 = true.
Proof.
  unfold Close, bind, get. rewrite Hfirst. simpl.
  eexists; repeat split.
  intros c' Hc'. rewrite Hc'. eexists; repeat split. exact Hc'.
Qed.

Lemma Close_first_then_subsequent_witness :
  exists c1,
    Close (alice []) = Ok tt c1
    /\ wire c1 = "</stream:stream>"
    /\ closing c1 = true
    /\ conn_open c1 = true
    /\ forall c', closing c' = true ->
         exists c2, Close c' = Ok tt c2
                    /\ conn_open c2 = false
                    /\ wire c2 = wire c'
                    /\ closing c2 = true.
Proof.
  apply (Close_first_then_subsequent
           (alice [])).
  reflexivity.
Defined.

(** [closing] is never taken back, so the first call is the only
    graceful one. *)
Lemma Close_closing (c : Connection) : closing (final (Close c)) = true.
Proof.
  unfold Close, bind, get. destruct (closing c) eqn:E; simpl; [exact E|reflexivity].
Qed.

(** * SASL PLAIN *)

(** The test vectors of RFC 4648, section 10. *)
Example base64_rfc4648 :
  EncodeToString EmptyString = EmptyString
  /\ EncodeToString "f" = "Zg=="
  /\ EncodeToString "fo" = "Zm8="
  /\ EncodeToString "foo" = "Zm9v"
  /\ EncodeToString "foob" = "Zm9vYg=="
  /\ EncodeToString "fooba" = "Zm9vYmE="
  /\ EncodeToString "foobar" = "Zm9vYmFy".
Proof. repeat split. Qed.

(** Four bytes of output for every three of input, rounded up. *)
Lemma base64_encode_length (src : list ascii) :
  length (base64_encode src) = 4 * ((length src + 2) / 3).
Proof.
  assert (H : forall n (l : list ascii), length l < n ->
                length (base64_encode l) = 4 * ((length l + 2) / 3)).
  { induction n as [|n IH]; intros l Hl; [lia|].
    destruct l as [|a [|b [|c rest]]]; try reflexivity.
    cbn [base64_encode length]. rewrite IH by (simpl in Hl; lia).
    replace (S (S (S (length rest))) + 2) with (length rest + 2 + 1 * 3) by lia.
    rewrite Nat.div_add by lia. lia. }
  apply (H (S (length src))). lia.
Qed.

Ltac by_octet a := destruct a as [[] [] [] [] [] [] [] []]; vm_compute; reflexivity.

Lemma enc_land (i : N) : enc i = enc (N.land i 63).
Proof. unfold enc. now rewrite <- N.land_assoc, N.land_diag. Qed.

Lemma index_of_three (A B C k : N) :
  N.land (N.shiftr (N.lor (N.lor (N.shiftl A 16) (N.shiftl B 8)) C) k) 63
  = N.lor (N.lor (N.land (N.shiftr (N.shiftl A 16) k) 63)
                 (N.land (N.shiftr (N.shiftl B 8) k) 63))
          (N.land (N.shiftr C k) 63).
Proof. now rewrite !N.shiftr_lor, !N.land_lor_distr_l. Qed.

Lemma index_of_two (A B k : N) :
  N.land (N.shiftr (N.lor (N.shiftl A 16) (N.shiftl B 8)) k) 63
  = N.lor (N.land (N.shiftr (N.shiftl A 16) k) 63)
          (N.land (N.shiftr (N.shiftl B 8) k) 63).
Proof. now rewrite !N.shiftr_lor, !N.land_lor_distr_l. Qed.

(** What each octet of a group of three gives to each of the four
    indices. *)
Lemma first_octet_18 (a : ascii) :
  N.land (N.shiftr (N.shiftl (N_of_ascii a) 16) 18) 63
  = bits_value (firstn 6 (bits_of_octet a)).
Proof. by_octet a. Qed.

Lemma first_octet_12 (a : ascii) :
  N.land (N.shiftr (N.shiftl (N_of_ascii a) 16) 12) 63
  = bits_value (skipn 6 (bits_of_octet a) ++ [false; false; false; false]).
Proof. by_octet a. Qed.

Lemma first_octet_6 (a : ascii) :
  N.land (N.shiftr (N.shiftl (N_of_ascii a) 16) 6) 63 = 0%N.
Proof. by_octet a. Qed.

Lemma first_octet_0 (a : ascii) :
  N.land (N.shiftr (N.shiftl (N_of_ascii a) 16) 0) 63 = 0%N.
Proof. by_octet a. Qed.

Lemma second_octet_18 (b : ascii) :
  N.land (N.shiftr (N.shiftl (N_of_ascii b) 8) 18) 63 = 0%N.
Proof. by_octet b. Qed.

Lemma second_octet_12 (b : ascii) :
  N.land (N.shiftr (N.shiftl (N_of_ascii b) 8) 12) 63
  = bits_value (firstn 4 (bits_of_octet b)).
Proof. by_octet b. Qed.

Lemma second_octet_6 (b : ascii) :
  N.land (N.shiftr (N.shiftl (N_of_ascii b) 8) 6) 63
  = bits_value (skipn 4 (bits_of_octet b) ++ [false; false]).
Proof. by_octet b. Qed.

Lemma second_octet_0 (b : ascii) :
  N.land (N.shiftr (N.shiftl (N_of_ascii b) 8) 0) 63 = 0%N.
Proof. by_octet b. Qed.

Lemma third_octet_18 (c : ascii) :
  N.land (N.shiftr (N_of_ascii c) 18) 63 = 0%N.
Proof. by_octet c. Qed.

Lemma third_octet_12 (c : ascii) :
  N.land (N.shiftr (N_of_ascii c) 12) 63 = 0%N.
Proof. by_octet c. Qed.

Lemma third_octet_6 (c : ascii) :
  N.land (N.shiftr (N_of_ascii c) 6) 63
  = bits_value (firstn 2 (bits_of_octet c)).
Proof. by_octet c. Qed.

Lemma third_octet_0 (c : ascii) :
  N.land (N.shiftr (N_of_ascii c) 0) 63
  = bits_value (skipn 2 (bits_of_octet c)).
Proof. by_octet c. Qed.

(** Two parts of one sextet, put together by [N.lor]. *)
Lemma lor_2_4 (p q r s t u : bool) :
  N.lor (bits_value [p; q; false; false; false; false]) (bits_value [r; s; t; u])
  = bits_value [p; q; r; s; t; u].
Proof. destruct p, q, r, s, t, u; reflexivity. Qed.

Lemma lor_4_2 (p q r s t u : bool) :
  N.lor (bits_value [p; q; r; s; false; false]) (bits_value [t; u])
  = bits_value [p; q; r; s; t; u].
Proof. destruct p, q, r, s, t, u; reflexivity. Qed.

(** The table of the code is Table 1 of RFC 4648. *)
Lemma enc_alphabet (p q r s t u : bool) :
  enc (bits_value [p; q; r; s; t; u]) = base64_alphabet (bits_value [p; q; r; s; t; u]).
Proof. destruct p, q, r, s, t, u; reflexivity. Qed.

Lemma quantum_index (val k : N) (p q r s t u : bool) :
  N.land (N.shiftr val k) 63 = bits_value [p; q; r; s; t; u] ->
  quantum val k = base64_alphabet (bits_value [p; q; r; s; t; u]).
Proof.
  intros H. unfold quantum. rewrite enc_land, H. apply enc_alphabet.
Qed.

Lemma pad_to_4_four (c1 c2 c3 c4 : ascii) (cs : list ascii) :
  pad_to_4 (c1 :: c2 :: c3 :: c4 :: cs) = c1 :: c2 :: c3 :: c4 :: pad_to_4 cs.
Proof.
  unfold pad_to_4. cbn [length app].
  replace (S (S (S (S (length cs))))) with (length cs + 1 * 4) by lia.
  now rewrite Nat.Div0.mod_add.
Qed.

Lemma three_at_a_time (P : list ascii -> Prop) :
  P [] -> (forall a, P [a]) -> (forall a b, P [a; b]) ->
  (forall a b c rest, P rest -> P (a :: b :: c :: rest)) ->
  forall l, P l.
Proof.
  intros H0 H1 H2 H3.
  assert (H : forall n l, length l < n -> P l).
  { induction n as [|n IH]; intros l Hl; [lia|].
    destruct l as [|a [|b [|c rest]]]; auto.
    apply H3, IH. simpl in Hl. lia. }
  intros l. apply (H (S (length l))). lia.
Qed.

(** The encoder of the code computes the base 64 encoding of RFC 4648. *)
Lemma base64_encode_standard (src : list ascii) :
  base64_encode src = base64_standard src.
Proof.
  induction src as [|a|a b|a b c rest IH] using three_at_a_time.
  - reflexivity.
  - cbn [base64_encode].
    pose proof (first_octet_18 a) as H18. pose proof (first_octet_12 a) as H12.
    destruct a as [a0 a1 a2 a3 a4 a5 a6 a7].
    cbn [bits_of_octet firstn skipn app] in H18, H12.
    rewrite (quantum_index _ _ _ _ _ _ _ _ H18), (quantum_index _ _ _ _ _ _ _ _ H12).
    reflexivity.
  - cbn [base64_encode].
    pose proof (first_octet_18 a) as A18. pose proof (first_octet_12 a) as A12.
    pose proof (first_octet_6 a) as A6.
    pose proof (second_octet_18 b) as B18. pose proof (second_octet_12 b) as B12.
    pose proof (second_octet_6 b) as B6.
    pose proof (index_of_two (N_of_ascii a) (N_of_ascii b) 18) as I18.
    pose proof (index_of_two (N_of_ascii a) (N_of_ascii b) 12) as I12.
    pose proof (index_of_two (N_of_ascii a) (N_of_ascii b) 6) as I6.
    rewrite A18, B18, N.lor_0_r in I18.
    rewrite A12, B12 in I12. rewrite A6, B6, N.lor_0_l in I6.
    destruct a as [a0 a1 a2 a3 a4 a5 a6 a7], b as [b0 b1 b2 b3 b4 b5 b6 b7].
    cbn [bits_of_octet firstn skipn app] in I18, I12, I6.
    rewrite lor_2_4 in I12.
    rewrite (quantum_index _ _ _ _ _ _ _ _ I18), (quantum_index _ _ _ _ _ _ _ _ I12),
      (quantum_index _ _ _ _ _ _ _ _ I6).
    reflexivity.
  - cbn [base64_encode]. rewrite IH.
    pose proof (first_octet_18 a) as A18. pose proof (first_octet_12 a) as A12.
    pose proof (first_octet_6 a) as A6. pose proof (first_octet_0 a) as A0.
    pose proof (second_octet_18 b) as B18. pose proof (second_octet_12 b) as B12.
    pose proof (second_octet_6 b) as B6. pose proof (second_octet_0 b) as B0.
    pose proof (third_octet_18 c) as C18. pose proof (third_octet_12 c) as C12.
    pose proof (third_octet_6 c) as C6. pose proof (third_octet_0 c) as C0.
    pose proof (index_of_three (N_of_ascii a) (N_of_ascii b) (N_of_ascii c) 18) as I18.
    pose proof (index_of_three (N_of_ascii a) (N_of_ascii b) (N_of_ascii c) 12) as I12.
    pose proof (index_of_three (N_of_ascii a) (N_of_ascii b) (N_of_ascii c) 6) as I6.
    pose proof (index_of_three (N_of_ascii a) (N_of_ascii b) (N_of_ascii c) 0) as I0.
    rewrite A18, B18, C18, !N.lor_0_r in I18.
    rewrite A12, B12, C12, N.lor_0_r in I12.
    rewrite A6, B6, C6, N.lor_0_l in I6.
    rewrite A0, B0, C0, !N.lor_0_l in I0.
    destruct a as [a0 a1 a2 a3 a4 a5 a6 a7], b as [b0 b1 b2 b3 b4 b5 b6 b7],
      c as [c0 c1 c2 c3 c4 c5 c6 c7].
    cbn [bits_of_octet firstn skipn app] in I18, I12, I6, I0.
    rewrite lor_2_4 in I12. rewrite lor_4_2 in I6.
    rewrite (quantum_index _ _ _ _ _ _ _ _ I18), (quantum_index _ _ _ _ _ _ _ _ I12),
      (quantum_index _ _ _ _ _ _ _ _ I6), (quantum_index _ _ _ _ _ _ _ _ I0).
    unfold base64_standard. cbn [bit_stream flat_map bits_of_octet app sextets map].
    rewrite pad_to_4_four. reflexivity.
Qed.

Lemma EncodeToString_standard (s : string) : EncodeToString s = Base64 s.
Proof. unfold EncodeToString, Base64. now rewrite base64_encode_standard. Qed.

Example Base64_rfc4648 :
  Base64 EmptyString = EmptyString
  /\ Base64 "f" = "Zg=="
  /\ Base64 "fo" = "Zm8="
  /\ Base64 "foo" = "Zm9v"
  /\ Base64 "foob" = "Zm9vYg=="
  /\ Base64 "fooba" = "Zm9vYmE="
  /\ Base64 "foobar" = "Zm9vYmFy".
Proof. repeat split. Qed.

(** The two last entries of the table, and the padding after one and
    after two octets. *)
Example Base64_plus_and_solidus :
  Base64 (String (ascii_of_nat 251) (String (ascii_of_nat 239) (str1 (ascii_of_nat 190))))
  = "++++"
  /\ Base64 (String (ascii_of_nat 255) (String (ascii_of_nat 255) (str1 (ascii_of_nat 255))))
     = "////"
  /\ Base64 (str1 (ascii_of_nat 251)) = "+w=="
  /\ Base64 (String (ascii_of_nat 255) (str1 (ascii_of_nat 240))) = "//A=".
Proof. repeat split. Qed.

(** C7. Whatever the user and the password, [sasl] writes exactly the
    [auth] element of mechanism PLAIN whose content is the standard
    base 64 encoding, as RFC 4648 defines it, of NUL, user, NUL,
    password; for alice and s3cret that content is
    AGFsaWNlAHMzY3JldA==. *)
Theorem sasl_writes_plain_auth (c : Connection) :
  wire (final (sasl c))
  = wire c
      +:+ ("<auth xmlns='urn:ietf:params:xml:ns:xmpp-sasl' mechanism='PLAIN'>"
             +:+ Base64 (str1 NUL +:+ user c +:+ str1 NUL +:+ password c)
             +:+ "</auth>")
  /\ Base64 (str1 NUL +:+ "alice" +:+ str1 NUL +:+ "s3cret")
     = "AGFsaWNlAHMzY3JldA==".
Proof.
  split; [|reflexivity].
  rewrite <- EncodeToString_standard.
  unfold sasl, bind, get, Write, nextStartElement. cbn [decoder set_wire].
  destruct (nextStartElement_loop (decoder c)) as [[[t|] e] rest]; cbn [fst].
  - destruct (Local (se_Name t) =? "success")%string; reflexivity.
  - reflexivity.
Qed.

(** * The version of the peer's stream *)

Lemma Split_acc_major (cur v : string) :
  exists rest, Split_acc "." cur v = (cur +:+ major v) :: rest.
Proof.
  revert cur. induction v as [|x v IH]; intros cur; simpl.
  - exists []. now rewrite append_nil_r.
  - destruct (Ascii.eqb x ".").
    + eexists. now rewrite append_nil_r.
    + destruct (IH (cur +:+ str1 x)) as [rest Hrest]. exists rest.
      rewrite Hrest. unfold str1. now autorewrite with str.
Qed.

(** [parts[0]] of [receiveStream] is the major component. *)
Lemma Split_major (v : string) : exists rest, Split v "." = major v :: rest.
Proof. apply (Split_acc_major EmptyString v). Qed.

Lemma stream_version_absent (attrs : list Attr) (v : string) :
  Forall (fun a => Local (attr_Name a) <> "version") attrs ->
  stream_version v attrs = v.
Proof.
  induction 1 as [|a attrs Ha _ IH]; simpl; [reflexivity|].
  destruct (String.eqb_spec (Local (attr_Name a)) "version"); [contradiction|exact IH].
Qed.

(** What [receiveStream] returns once the opener is a [stream] element
    of the stream name space, by the version the loop has found. *)
Lemma receiveStream_by_version (c c1 : Connection) (t : StartElement) :
  nextStartElement c = Ok (Some t, None) c1 ->
  Local (se_Name t) = "stream" ->
  Space (se_Name t) = nsStream ->
  receiveStream c =
  Ok (let v := stream_version EmptyString (se_Attr t) in
      if (v =? EmptyString)%string then Some (UnsupportedVersion "0.9")
      else if (major v =? "1")%string then None
           else Some (UnsupportedVersion v)) c1.
Proof.
  intros Hnext Hlocal Hspace. unfold receiveStream, bind. rewrite Hnext.
  cbn [fst snd]. rewrite Hlocal, Hspace. cbn [negb String.eqb].
  change ((nsStream =? "http://etherx.jabber.org/streams")%string) with true.
  cbn [negb]. cbv zeta.
  destruct (stream_version EmptyString (se_Attr t) =? EmptyString)%string; [reflexivity|].
  destruct (Split_major (stream_version EmptyString (se_Attr t))) as [rest ->].
  destruct (major _ =? "1")%string; reflexivity.
Qed.

(** C2, amended. For an opener that is a [stream] element of the stream
    name space: version 1.0 and 1.9 pass, 2.0 fails with
    UnsupportedVersion 2.0, a missing or empty version fails with
    UnsupportedVersion 0.9, and any other non-empty version whose major
    component is not 1 fails with UnsupportedVersion of that version. *)
Theorem receiveStream_version_check (c c1 : Connection) (t : StartElement)
  (Hnext : nextStartElement c = Ok (Some t, None) c1)
  (Hlocal : Local (se_Name t) = "stream")
  (Hspace : Space (se_Name t) = nsStream) :
  let v := stream_version EmptyString (se_Attr t) in
  (v = "1.0" -> receiveStream c = Ok None c1)
  /\ (v = "1.9" -> receiveStream c = Ok None c1)
  /\ (v = "2.0" -> receiveStream c = Ok (Some (UnsupportedVersion "2.0")) c1)
  /\ (Forall (fun a => Local (attr_Name a) <> "version") (se_Attr t) ->
      receiveStream c = Ok (Some (UnsupportedVersion "0.9")) c1)
  /\ (v = EmptyString ->
      receiveStream c = Ok (Some (UnsupportedVersion "0.9")) c1)
  /\ (v <> EmptyString -> major v <> "1" ->
      receiveStream c = Ok (Some (UnsupportedVersion v)) c1)
  /\ (major v = "1" -> receiveStream c = Ok None c1).
Proof.
  intros v. rewrite (receiveStream_by_version c c1 t Hnext Hlocal Hspace).
  fold v. cbv zeta.
  repeat split.
  - intros ->. reflexivity.
  - intros ->. reflexivity.
  - intros ->. reflexivity.
  - intros Habs. unfold v. rewrite (stream_version_absent _ _ Habs). reflexivity.
  - intros ->. reflexivity.
  - intros Hne Hmaj.
    destruct (String.eqb_spec v EmptyString) as [|_]; [contradiction|].
    destruct (String.eqb_spec (major v) "1"); [contradiction|reflexivity].
  - intros Hmaj.
    destruct (String.eqb_spec v EmptyString) as [E|_].
    + rewrite E in Hmaj. discriminate Hmaj.
    + rewrite Hmaj. reflexivity.
Qed.

Lemma receiveStream_version_check_witness :
  let c := new_Connection "alice" "example.org" "s3cret"
             [TStartElement (opener "2.0")] in
  let c1 := set_decoder [] c in
  let v := stream_version EmptyString (se_Attr (opener "2.0")) in
  (v = "1.0" -> receiveStream c = Ok None c1)
  /\ (v = "1.9" -> receiveStream c = Ok None c1)
  /\ (v = "2.0" -> receiveStream c = Ok (Some (UnsupportedVersion "2.0")) c1)
  /\ (Forall (fun a => Local (attr_Name a) <> "version") (se_Attr (opener "2.0")) ->
      receiveStream c = Ok (Some (UnsupportedVersion "0.9")) c1)
  /\ (v = EmptyString ->
      receiveStream c = Ok (Some (UnsupportedVersion "0.9")) c1)
  /\ (v <> EmptyString -> major v <> "1" ->
      receiveStream c = Ok (Some (UnsupportedVersion v)) c1)
  /\ (major v = "1" -> receiveStream c = Ok None c1).
Proof.
  intros c c1.
  apply (receiveStream_version_check c c1 (opener "2.0")); reflexivity.
Defined.

(** C2 as the specification words it fails for an opener whose version
    attribute is the empty string: its major component is not 1, yet the
    version reported is 0.9 and not the empty one. *)
Lemma receiveStream_empty_version_counterexample :
  let c := new_Connection "alice" "example.org" "s3cret"
             [TStartElement (opener EmptyString)] in
  stream_version EmptyString (se_Attr (opener EmptyString)) = EmptyString
  /\ major EmptyString <> "1"
  /\ receiveStream c = Ok (Some (UnsupportedVersion "0.9")) (set_decoder [] c)
  /\ receiveStream c <> Ok (Some (UnsupportedVersion EmptyString)) (set_decoder [] c).
Proof.
  intros c. split; [reflexivity|]. split; [discriminate|].
  split; [reflexivity|]. vm_compute. discriminate.
Qed.

(** * The id generator *)

Lemma N_to_uint_nonnil (n : N) : N.to_uint n <> Decimal.Nil.
Proof.
  destruct n as [|p]; [discriminate|].
  apply DecimalPos.Unsigned.to_uint_nonnil.
Qed.

Lemma Sprintf_d_inj (m n : N) : Sprintf_d m = Sprintf_d n -> m = n.
Proof.
  unfold Sprintf_d. intros H.
  apply DecimalN.Unsigned.to_uint_inj.
  assert (E : NilZero.uint_of_string (NilZero.string_of_uint (N.to_uint m))
              = NilZero.uint_of_string (NilZero.string_of_uint (N.to_uint n)))
    by now rewrite H.
  rewrite !NilZero.usu in E by apply N_to_uint_nonnil. congruence.
Qed.

Lemma after_cookies_succ (n : N) (c : Connection) :
  after_cookies (N.succ n) c = final (getCookie (after_cookies n c)).
Proof. unfold after_cookies. now rewrite N.iter_succ. Qed.

(** The counter after [n] ids, with the wrap-around of [uint64]. *)
Lemma after_cookies_cookie (n : N) (c : Connection) :
  (cookie c < uint64_max)%N ->
  cookie (after_cookies n c) = ((cookie c + n) mod uint64_max)%N.
Proof.
  intros Hc. induction n as [|n IH] using N.peano_ind.
  - simpl. rewrite N.add_0_r. symmetry. now apply N.mod_small.
  - rewrite after_cookies_succ. unfold getCookie. simpl. rewrite IH.
    rewrite N.Div0.add_mod_idemp_l. f_equal. lia.
Qed.

Lemma nth_cookie_eq (n : N) (c : Connection) :
  (cookie c < uint64_max)%N ->
  nth_cookie n c = Sprintf_d ((cookie c + n) mod uint64_max)%N.
Proof.
  intros Hc. unfold nth_cookie, getCookie.
  now rewrite after_cookies_cookie.
Qed.

(** C6, amended. In a session, whose generator starts at 0, the id
    handed out after n earlier ones is the decimal rendering of n, and
    the ids are pairwise distinct, as long as fewer than 2^64 ids have
    been handed out before it. *)
Theorem cookies_decimal_and_distinct (c : Connection) (n : N)
  (Hstart : cookie c = 0%N) (Hn : (n < uint64_max)%N) :
  nth_cookie n c = Sprintf_d n
  /\ forall m, (m < uint64_max)%N -> m <> n -> nth_cookie m c <> nth_cookie n c.
Proof.
  assert (Hc : (cookie c < uint64_max)%N) by (rewrite Hstart; reflexivity).
  split.
  - rewrite nth_cookie_eq, Hstart by exact Hc. simpl. now rewrite N.mod_small.
  - intros m Hm Hmn Heq. rewrite !nth_cookie_eq, Hstart in Heq by exact Hc.
    apply Sprintf_d_inj in Heq. simpl in Heq.
    rewrite !N.mod_small in Heq by assumption. contradiction.
Qed.

Lemma cookies_decimal_and_distinct_witness :
  nth_cookie 2 (alice []) = Sprintf_d 2
  /\ forall m, (m < uint64_max)%N -> m <> 2%N ->
       nth_cookie m (alice [])
       <> nth_cookie 2 (alice []).
Proof.
  apply (cookies_decimal_and_distinct
           (alice []) 2);
    reflexivity.
Defined.

(** The counter is a [uint64]: once 2^64 ids have been handed out the
    next one is 0 again, which is neither the decimal rendering of 2^64
    nor distinct from the first id. *)
Lemma cookies_wrap_counterexample :
  let c := alice [] in
  nth_cookie uint64_max c = "0"
  /\ nth_cookie uint64_max c <> Sprintf_d uint64_max
  /\ uint64_max <> 0%N
  /\ nth_cookie uint64_max c = nth_cookie 0 c.
Proof.
  intros c.
  assert (H : nth_cookie uint64_max c = "0").
  { rewrite nth_cookie_eq by reflexivity. reflexivity. }
  split; [exact H|]. split; [|split].
  - rewrite H. vm_compute. discriminate.
  - discriminate.
  - rewrite H. reflexivity.
Qed.

(** * The callback table *)

(** A fresh connection has no callback, and [SendIQ] keeps the table in
    the state [callbacks_ok] describes. *)
Lemma callbacks_ok_new (u h p : string) (toks : list Token) :
  callbacks_ok (new_Connection u h p toks).
Proof. split; intros *; simpl; rewrite lookup_empty; discriminate. Qed.

Lemma table_ok_insert (cb : gmap string nat) (h : gmap nat (chan IQ))
      (id : string) (r : nat) :
  table_ok cb h -> h !! r = None ->
  table_ok (<[id := r]> cb) (<[r := make_chan 1]> h).
Proof.
  intros [Hch Hinj] Hr.
  assert (Hold : forall i ch, cb !! i = Some ch -> ch <> r).
  { intros i ch Hi ->. rewrite (Hch _ _ Hi) in Hr. discriminate. }
  split.
  - intros i ch Hi. destruct (decide (id = i)) as [->|Hne].
    + rewrite lookup_insert_eq in Hi. injection Hi as <-. apply lookup_insert_eq.
    + rewrite lookup_insert_ne in Hi by exact Hne.
      rewrite lookup_insert_ne; [eapply Hch; exact Hi|].
      intros E. symmetry in E. revert E. eapply Hold. exact Hi.
  - intros i1 i2 ch H1 H2.
    destruct (decide (id = i1)) as [E1|N1]; destruct (decide (id = i2)) as [E2|N2].
    + congruence.
    + subst i1. rewrite lookup_insert_eq in H1. injection H1 as <-.
      rewrite lookup_insert_ne in H2 by exact N2.
      exfalso. eapply Hold; [exact H2|reflexivity].
    + subst i2. rewrite lookup_insert_eq in H2. injection H2 as <-.
      rewrite lookup_insert_ne in H1 by exact N1.
      exfalso. eapply Hold; [exact H1|reflexivity].
    + rewrite lookup_insert_ne in H1 by exact N1.
      rewrite lookup_insert_ne in H2 by exact N2. eapply Hinj; eassumption.
Qed.

Lemma table_ok_delete (cb : gmap string nat) (h : gmap nat (chan IQ))
      (id : string) (ch : nat) (k : chan IQ) :
  table_ok cb h -> cb !! id = Some ch ->
  table_ok (delete id cb) (<[ch := k]> h).
Proof.
  intros [Hch Hinj] Hid. split.
  - intros i ch0 H0. apply lookup_delete_Some in H0 as [Hne H0].
    rewrite lookup_insert_ne; [eapply Hch; exact H0|].
    intros ->. apply Hne. eapply Hinj; eassumption.
  - intros i1 i2 ch0 H1 H2.
    apply lookup_delete_Some in H1 as [_ H1].
    apply lookup_delete_Some in H2 as [_ H2]. eapply Hinj; eassumption.
Qed.

(** Projections of an updated connection reduce to those of the
    connection it was made from. *)
Ltac conn_simpl :=
  cbn [conn_open wire mu user host decoder later features password cookie jid
       callbacks closing subscribers iqchans stchans log
       set_conn_open set_wire set_mu set_decoder set_later set_features set_cookie
       set_callbacks set_closing set_subscribers set_iqchans set_stchans
       add_log] in *.

Lemma SendIQ_callbacks_ok (to typ : string) (value : option string) (c : Connection) :
  mu c = false -> callbacks_ok c ->
  exists reply c',
    SendIQ to typ value c = Ok (reply, Sprintf_d (cookie c)) c'
    /\ callbacks c' = <[Sprintf_d (cookie c) := reply]> (callbacks c)
    /\ iqchans c' = <[reply := make_chan 1]> (iqchans c)
    /\ iqchans c !! reply = None
    /\ mu c' = false
    /\ callbacks_ok c'.
Proof.
  intros Hmu Hok.
  set (r := fresh (dom (iqchans c))).
  assert (Hr : iqchans c !! r = None).
  { apply not_elem_of_dom. apply is_fresh. }
  exists r. unfold SendIQ, bind, getCookie, make_iqchan, Lock, Unlock, get, Write.
  conn_simpl. rewrite Hmu. conn_simpl. fold r.
  destruct value as [bytes|]; cbn [Encode]; unfold Write, ret;
    (eexists; split; [reflexivity|]); unfold callbacks_ok; conn_simpl;
    (split; [reflexivity|]); (split; [reflexivity|]); (split; [exact Hr|]);
    (split; [reflexivity|]); now apply table_ok_insert.
Qed.

Lemma logged_app (c c' : Connection) (l : list event) :
  log c' = log c ++ l -> logged c c' = l.
Proof. unfold logged. intros ->. now rewrite drop_app_length. Qed.

Lemma is_response (iq : IQ) :
  Type_ (iq_Header iq) = "result" \/ Type_ (iq_Header iq) = "error" ->
  (Type_ (iq_Header iq) =? "result")%string
  || (Type_ (iq_Header iq) =? "error")%string = true.
Proof. intros [-> | ->]; reflexivity. Qed.

Lemma send_precedes_delete (ch : nat) (iq : IQ) (id : string) :
  precedes (is_send ch) (is_delete id)
           [EvLock; EvSend ch iq; EvDelete id; EvUnlock] = true
  /\ precedes (is_delete id) (is_send ch)
              [EvLock; EvSend ch iq; EvDelete id; EvUnlock] = false.
Proof.
  cbn. rewrite Nat.eqb_refl, String.eqb_refl, andb_false_r. split; reflexivity.
Qed.

(** A response nobody waits for is dropped and nothing is touched but
    the mutex, taken and released. *)
Lemma dispatch_unknown_id (c : Connection) (iq : IQ) :
  mu c = false ->
  Type_ (iq_Header iq) = "result" \/ Type_ (iq_Header iq) = "error" ->
  callbacks c !! Id (iq_Header iq) = None ->
  exists c', dispatch (SIQ iq) c = Ok tt c'
             /\ iqchans c' = iqchans c
             /\ stchans c' = stchans c
             /\ callbacks c' = callbacks c
             /\ log c' = log c ++ [EvLock; EvUnlock]
             /\ mu c' = false.
Proof.
  intros Hmu Hty Hnone. unfold dispatch. rewrite (is_response iq Hty).
  unfold bind, Lock, get, Unlock, ret. rewrite Hmu.
  cbn [callbacks add_log set_mu ID]. rewrite Hnone.
  cbn [mu add_log set_mu]. eexists; split; [reflexivity|].
  cbn [iqchans stchans callbacks log add_log set_mu].
  repeat split. now rewrite <- app_assoc.
Qed.

(** A response somebody waits for, on a slot that is free. *)
Lemma dispatch_known_id (c : Connection) (iq : IQ) (ch : nat) :
  mu c = false ->
  Type_ (iq_Header iq) = "result" \/ Type_ (iq_Header iq) = "error" ->
  callbacks c !! Id (iq_Header iq) = Some ch ->
  iqchans c !! ch = Some (make_chan 1) ->
  dispatch (SIQ iq) c = Ok tt (delivered c iq ch).
Proof.
  intros Hmu Hty Hid Hk. unfold dispatch. rewrite (is_response iq Hty).
  unfold bind at 1 2. unfold Lock. rewrite Hmu.
  unfold bind at 1. unfold get at 1. conn_simpl. cbn [ID].
  rewrite Hid. unfold bind, chan_send, delete_callback, Unlock.
  conn_simpl. rewrite Hk.
  cbn [cclosed make_chan chan_ready cbuf ccap length Nat.ltb Nat.leb].
  conn_simpl. unfold delivered. reflexivity.
Qed.

(** C1, amended. For every inbound IQ of type result or error whose id
    is a key of the callback table, the router puts exactly that stanza
    in the registered slot, once, and afterwards the id is absent from
    the table; the slot is signalled first and the entry removed next,
    both while the router holds the mutex. *)
Theorem dispatch_delivers_then_removes (c : Connection) (iq : IQ) (ch : nat)
  (Hmu : mu c = false)
  (Hok : callbacks_ok c)
  (Hty : Type_ (iq_Header iq) = "result" \/ Type_ (iq_Header iq) = "error")
  (Hid : callbacks c !! Id (iq_Header iq) = Some ch) :
  exists c',
    dispatch (SIQ iq) c = Ok tt c'
    /\ iqchans c' !! ch = Some (MkChan 1 [iq] false)
    /\ (forall ch', ch' <> ch -> iqchans c' !! ch' = iqchans c !! ch')
    /\ callbacks c' = delete (Id (iq_Header iq)) (callbacks c)
    /\ callbacks c' !! Id (iq_Header iq) = None
    /\ logged c c' = [EvLock; EvSend ch iq; EvDelete (Id (iq_Header iq)); EvUnlock]
    /\ precedes (is_send ch) (is_delete (Id (iq_Header iq))) (logged c c') = true
    /\ precedes (is_delete (Id (iq_Header iq))) (is_send ch) (logged c c') = false
    /\ stchans c' = stchans c
    /\ mu c' = false
    /\ callbacks_ok c'
    /\ exists c'', dispatch (SIQ iq) c' = Ok tt c''
                   /\ iqchans c'' = iqchans c'
                   /\ callbacks c'' = callbacks c'.
Proof.
  pose proof (proj1 Hok _ _ Hid) as Hk.
  pose proof (dispatch_known_id c iq ch Hmu Hty Hid Hk) as Hrun.
  assert (Hlogged : logged c (delivered c iq ch)
            = [EvLock; EvSend ch iq; EvDelete (Id (iq_Header iq)); EvUnlock]).
  { apply logged_app. unfold delivered. conn_simpl. now rewrite <- !app_assoc. }
  exists (delivered c iq ch). split; [exact Hrun|].
  split; [apply lookup_insert_eq|].
  split; [intros ch' Hne; now apply lookup_insert_ne|].
  split; [reflexivity|].
  split; [apply lookup_delete_eq|].
  split; [exact Hlogged|].
  split; [rewrite Hlogged; apply send_precedes_delete|].
  split; [rewrite Hlogged; apply send_precedes_delete|].
  split; [reflexivity|].
  split; [reflexivity|].
  split; [now apply table_ok_delete|].
  destruct (dispatch_unknown_id (delivered c iq ch) iq)
    as (c'' & Hd & Hiq & _ & Hcb & _);
    [reflexivity | exact Hty | apply lookup_delete_eq |].
  exists c''. split; [exact Hd|]. split; [exact Hiq | exact Hcb].
Qed.

Lemma waiting_callbacks_ok : callbacks_ok waiting.
Proof.
  unfold callbacks_ok, waiting, alice, new_Connection. conn_simpl. split.
  - intros id ch H. apply lookup_singleton_Some in H as [_ <-].
    apply lookup_singleton_eq.
  - intros id1 id2 ch H1 H2.
    apply lookup_singleton_Some in H1 as [<- _].
    apply lookup_singleton_Some in H2 as [<- _]. reflexivity.
Qed.

Lemma dispatch_delivers_then_removes_witness :
  exists c',
    dispatch (SIQ result0) waiting = Ok tt c'
    /\ iqchans c' !! 0 = Some (MkChan 1 [result0] false)
    /\ (forall ch', ch' <> 0 -> iqchans c' !! ch' = iqchans waiting !! ch')
    /\ callbacks c' = delete "0" (callbacks waiting)
    /\ callbacks c' !! "0" = None
    /\ logged waiting c' = [EvLock; EvSend 0 result0; EvDelete "0"; EvUnlock]
    /\ precedes (is_send 0) (is_delete "0") (logged waiting c') = true
    /\ precedes (is_delete "0") (is_send 0) (logged waiting c') = false
    /\ stchans c' = stchans waiting
    /\ mu c' = false
    /\ callbacks_ok c'
    /\ exists c'', dispatch (SIQ result0) c' = Ok tt c''
                   /\ iqchans c'' = iqchans c'
                   /\ callbacks c'' = callbacks c'.
Proof.
  apply (dispatch_delivers_then_removes waiting result0 0).
  - reflexivity.
  - exact waiting_callbacks_ok.
  - left. reflexivity.
  - reflexivity.
Defined.

(** C1 as the specification words it has the entry removed before the slot is
    signalled.  In the session [waiting] the response [result0] is first
    sent on the slot and only then deleted from the table. *)
Lemma dispatch_order_counterexample :
  callbacks waiting !! Id (iq_Header result0) = Some 0
  /\ returned (dispatch (SIQ result0) waiting) = true
  /\ logged waiting (final (dispatch (SIQ result0) waiting))
     = [EvLock; EvSend 0 result0; EvDelete "0"; EvUnlock]
  /\ precedes (is_delete "0") (is_send 0)
       (logged waiting (final (dispatch (SIQ result0) waiting))) <> true.
Proof.
  split; [vm_compute; reflexivity|].
  split; [vm_compute; reflexivity|].
  split; [vm_compute; reflexivity|].
  vm_compute. discriminate.
Qed.

(** * End of stream *)

(** [nextStartElement] returns nil exactly at the end of the stream. *)
Lemma nextStartElement_loop_nil (toks : list Token) :
  end_of_stream toks <-> fst (fst (nextStartElement_loop toks)) = None.
Proof.
  split.
  - induction 1 as [|n rest Hn|n rest Hn _ IH|s rest _ IH|rest _ IH]; simpl;
      try rewrite Hn; auto.
  - induction toks as [|t toks IH]; simpl; [constructor|].
    destruct t as [t|n|s|]; simpl; try discriminate.
    + destruct (is_stream_end n) eqn:E; intros H.
      * now apply eos_closing_tag.
      * apply eos_end_element; auto.
    + intros H. constructor. auto.
    + intros H. constructor. auto.
Qed.

(** Both triggers: the decoder fails, or yields the closing tag. *)
Lemma end_of_stream_triggers (rest : list Token) :
  end_of_stream [] /\ end_of_stream (TEndElement (MkName nsStream "stream") :: rest).
Proof. split; [constructor | now apply eos_closing_tag]. Qed.

Lemma callback_chans_NoDup (c : Connection) :
  callbacks_ok c -> NoDup (callback_chans c).
Proof.
  intros [_ Hinj]. unfold callback_chans.
  apply NoDup_fmap_2_strong; [|apply NoDup_map_to_list].
  intros [id1 ch1] [id2 ch2] H1 H2 E. simpl in E. subst ch2.
  apply elem_of_map_to_list in H1, H2. f_equal. eapply Hinj; eassumption.
Qed.

Lemma callback_chans_elem (c : Connection) (ch : nat) :
  ch ∈ callback_chans c <-> exists id, callbacks c !! id = Some ch.
Proof.
  unfold callback_chans. rewrite list_elem_of_fmap. split.
  - intros [[id ch'] [-> H]]. exists id. now apply elem_of_map_to_list.
  - intros [id H]. exists (id, ch). split; [reflexivity|].
    now apply elem_of_map_to_list.
Qed.

(** Closing a list of distinct open channels closes each of them, keeps
    what they hold, and touches nothing else. *)
Lemma for_each_chan_close (l : list nat) : forall c : Connection,
  NoDup l ->
  (forall ch, ch ∈ l -> exists k, iqchans c !! ch = Some k /\ cclosed k = false) ->
  exists c',
    for_each chan_close l c = Ok tt c'
    /\ (forall ch, ch ∈ l -> iqchans c' !! ch = chan_shut <$> iqchans c !! ch)
    /\ (forall ch, ch ∉ l -> iqchans c' !! ch = iqchans c !! ch)
    /\ log c' = log c ++ (EvClose <$> l)
    /\ wire c' = wire c /\ closing c' = closing c /\ conn_open c' = conn_open c
    /\ mu c' = mu c /\ callbacks c' = callbacks c /\ stchans c' = stchans c.
Proof.
  induction l as [|a l IH]; intros c Hnd Hopen.
  - exists c. cbn [for_each]. unfold ret. repeat split; try reflexivity.
    + intros ch Hch. inversion Hch.
    + simpl. now rewrite app_nil_r.
  - apply NoDup_cons in Hnd as [Ha Hnd].
    destruct (Hopen a) as (k & Hk & Hkopen); [left|].
    cbn [for_each]. unfold bind at 1. unfold chan_close at 1.
    rewrite Hk, Hkopen.
    set (c1 := add_log (EvClose a) (set_iqchans (<[a:=chan_shut k]> (iqchans c)) c)).
    destruct (IH c1 Hnd) as (c' & Hrun & Hin & Hout & Hlog & Hrest).
    { intros ch Hch. destruct (Hopen ch) as (k' & Hk' & Hk'open); [now right|].
      exists k'. split; [|exact Hk'open]. unfold c1. cbn [iqchans add_log set_iqchans].
      rewrite lookup_insert_ne; [exact Hk'|]. intros ->. contradiction. }
    exists c'. split; [exact Hrun|].
    split; [|split; [|split]].
    + intros ch Hch. apply elem_of_cons in Hch as [->|Hch].
      * rewrite (Hout a Ha). unfold c1. cbn [iqchans add_log set_iqchans].
        rewrite lookup_insert_eq, Hk. reflexivity.
      * rewrite (Hin ch Hch). unfold c1. cbn [iqchans add_log set_iqchans].
        rewrite lookup_insert_ne; [reflexivity|]. intros ->. contradiction.
    + intros ch Hch. apply not_elem_of_cons in Hch as [Hne Hch].
      rewrite (Hout ch Hch). unfold c1. cbn [iqchans add_log set_iqchans].
      now rewrite lookup_insert_ne.
    + rewrite Hlog. unfold c1. cbn [log add_log set_iqchans fmap list_fmap].
      now rewrite <- app_assoc.
    + exact Hrest.
Qed.

Lemma Close_returns (c : Connection) :
  exists c', Close c = Ok tt c' /\ iqchans c' = iqchans c /\ log c' = log c
             /\ callbacks c' = callbacks c /\ mu c' = mu c.
Proof.
  unfold Close, bind, get, Conn_Close, Write.
  destruct (closing c); eexists; repeat split.
Qed.

(** C3. When the router observes the end of the stream, be it the
    closing tag of the stream or a failure of the decoder, it closes the
    channel of every pending callback, calls [Close], and [read]
    returns. *)
Theorem read_end_of_stream (c : Connection)
  (Heos : end_of_stream (decoder c))
  (Hmu : mu c = false)
  (Hok : callbacks_ok c) :
  exists c1 c',
    read c = Some (Ok tt c')
    /\ Close c1 = Ok tt c'
    /\ wire c1 = wire c /\ closing c1 = closing c /\ conn_open c1 = conn_open c
    /\ (forall id ch, callbacks c !! id = Some ch ->
          iqchans c1 !! ch = Some (MkChan 1 [] true)
          /\ iqchans c' !! ch = Some (MkChan 1 [] true))
    /\ logged c c' = EvLock :: (EvClose <$> callback_chans c).
Proof.
  apply nextStartElement_loop_nil in Heos.
  unfold read. cbn [read_loop]. unfold read_iter.
  unfold bind at 1. unfold nextStartElement.
  destruct (nextStartElement_loop (decoder c)) as [[t e] rest]. simpl in Heos.
  subst t. cbn [fst].
  unfold bind at 1 2. unfold Lock at 1. cbn [mu set_decoder]. rewrite Hmu.
  unfold bind at 1. unfold get at 1.
  set (c0 := add_log EvLock (set_mu true (set_decoder rest c))).
  assert (Hcc : callback_chans c0 = callback_chans c) by reflexivity.
  destruct (for_each_chan_close (callback_chans c0) c0)
    as (c1 & Hrun & Hin & _ & Hlog & Hw & Hcl & Hco & _ & _ & _).
  { rewrite Hcc. now apply callback_chans_NoDup. }
  { rewrite Hcc. intros ch Hch. apply callback_chans_elem in Hch as [id Hid].
    exists (make_chan 1). split; [|reflexivity].
    destruct Hok as [Hch _]. exact (Hch _ _ Hid). }
  rewrite Hrun. destruct (Close_returns c1) as (c' & HClose & Hiq & Hlog' & _).
  unfold bind. rewrite HClose. unfold ret.
  exists c1, c'. split; [reflexivity|]. split; [exact HClose|].
  split; [exact Hw|]. split; [exact Hcl|]. split; [exact Hco|].
  split.
  - intros id ch Hid. rewrite Hiq.
    assert (H1 : iqchans c1 !! ch = Some (MkChan 1 [] true)).
    { rewrite Hin by (rewrite Hcc; apply callback_chans_elem; eauto).
      destruct Hok as [Hch _]. change (iqchans c0) with (iqchans c).
      now rewrite (Hch _ _ Hid). }
    split; exact H1.
  - apply logged_app. rewrite Hlog', Hlog, Hcc. unfold c0.
    cbn [log add_log set_mu set_decoder]. now rewrite <- app_assoc.
Qed.

Lemma read_end_of_stream_witness :
  exists c1 c',
    read waiting = Some (Ok tt c')
    /\ Close c1 = Ok tt c'
    /\ wire c1 = wire waiting /\ closing c1 = closing waiting
    /\ conn_open c1 = conn_open waiting
    /\ (forall id ch, callbacks waiting !! id = Some ch ->
          iqchans c1 !! ch = Some (MkChan 1 [] true)
          /\ iqchans c' !! ch = Some (MkChan 1 [] true))
    /\ logged waiting c' = EvLock :: (EvClose <$> callback_chans waiting).
Proof.
  apply (read_end_of_stream waiting).
  - simpl. constructor.
  - reflexivity.
  - exact waiting_callbacks_ok.
Defined.

(** [read] always returns, panics or blocks: the fuel it is given is
    never used up. *)
Lemma nextStartElement_loop_length (toks : list Token) :
  match nextStartElement_loop toks with
  | ((Some _, _), rest) => length rest < length toks
  | ((None, _), rest) => length rest <= length toks
  end.
Proof.
  induction toks as [|t toks IH]; simpl; [lia|].
  destruct t as [t|n|s|]; simpl; try lia.
  - destruct (is_stream_end n); simpl; [lia|].
    destruct (nextStartElement_loop toks) as [[[?|] ?] ?]; lia.
  - destruct (nextStartElement_loop toks) as [[[?|] ?] ?]; lia.
  - destruct (nextStartElement_loop toks) as [[[?|] ?] ?]; lia.
Qed.

Lemma decode_children_length {A : Type}
      (field : A -> StartElement -> list Token -> A * nat * bool)
      (toks : list Token) : forall skip acc,
  length (snd (fst (decode_children field skip acc toks))) <= length toks.
Proof.
  induction toks as [|tok toks IH]; intros skip acc; cbn [decode_children];
    [simpl; lia|].
  destruct skip as [|k]; [|specialize (IH k acc); simpl; lia].
  destruct tok as [t|n|s|].
  - destruct (field acc t toks) as [[acc' n] [|]].
    + specialize (IH n acc'). simpl. lia.
    + cbn [fst snd]. rewrite length_skipn. simpl. lia.
  - simpl. lia.
  - specialize (IH 0 acc). simpl. lia.
  - specialize (IH 0 acc). simpl. lia.
Qed.

(** Whatever [DecodeElement] is given, it returns, and the decoder it
    leaves is the connection's own, some tokens further. *)
Lemma DecodeElement_reads (nv : Stanza) (t : StartElement) (c : Connection) :
  exists nv' d, DecodeElement nv t c = Ok nv' (set_decoder d c)
                /\ length d <= length (decoder c).
Proof.
  unfold DecodeElement, unmarshal_Presence, unmarshal_IQ, unmarshal_Error.
  destruct nv as [|e|m|p|iq|e|p].
  - exists SNil, (decoder c). split; [|lia]. now destruct c.
  - match goal with |- context [decode_children ?f 0 ?a (decoder c)] =>
      pose proof (decode_children_length f (decoder c) 0 a) as H;
      destruct (decode_children f 0 a (decoder c)) as [[x rest] ok] end.
    eexists; eexists; split; [reflexivity|exact H].
  - match goal with |- context [decode_children ?f 0 ?a (decoder c)] =>
      pose proof (decode_children_length f (decoder c) 0 a) as H;
      destruct (decode_children f 0 a (decoder c)) as [[x rest] ok] end.
    eexists; eexists; split; [reflexivity|exact H].
  - match goal with |- context [decode_children ?f 0 ?a (decoder c)] =>
      pose proof (decode_children_length f (decoder c) 0 a) as H;
      destruct (decode_children f 0 a (decoder c)) as [[x rest] ok] end.
    eexists; eexists; split; [reflexivity|exact H].
  - match goal with |- context [decode_children ?f 0 ?a (decoder c)] =>
      pose proof (decode_children_length f (decoder c) 0 a) as H;
      destruct (decode_children f 0 a (decoder c)) as [[x rest] ok] end.
    eexists; eexists; split; [reflexivity|exact H].
  - match goal with |- context [decode_children ?f 0 ?a (decoder c)] =>
      pose proof (decode_children_length f (decoder c) 0 a) as H;
      destruct (decode_children f 0 a (decoder c)) as [[x rest] ok] end.
    eexists; eexists; split; [reflexivity|exact H].
  - match goal with |- context [decode_children ?f 0 ?a (decoder c)] =>
      pose proof (decode_children_length f (decoder c) 0 a) as H;
      destruct (decode_children f 0 a (decoder c)) as [[x rest] ok] end.
    eexists; eexists; split; [reflexivity|exact H].
Qed.

Lemma DecodeElement_decoder (nv : Stanza) (t : StartElement) (c : Connection) :
  exists nv' c', DecodeElement nv t c = Ok nv' c'
                 /\ length (decoder c') <= length (decoder c).
Proof.
  destruct (DecodeElement_reads nv t c) as (nv' & d & H & Hle).
  exists nv', (set_decoder d c). split; [exact H|exact Hle].
Qed.

Lemma try_send_decoder (ch : nat) (stanza : Stanza) (c : Connection) :
  decoder (final (try_send ch stanza c)) = decoder c.
Proof.
  unfold try_send. destruct (stchans c !! ch) as [k|]; [|reflexivity].
  destruct (cclosed k); [reflexivity|]. destruct (chan_ready k); reflexivity.
Qed.

Lemma send_decoder (stanza : Stanza) (c : Connection) :
  decoder (final (send stanza c)) = decoder c.
Proof.
  unfold send, bind at 1. generalize (subscribers c) as l. intros l. revert c.
  induction l as [|a l IH]; intros c; [reflexivity|].
  cbn [for_each]. unfold bind. pose proof (try_send_decoder a stanza c) as H.
  destruct (try_send a stanza c) as [[] c1|c1|c1]; simpl in H; simpl;
    [|exact H|exact H].
  rewrite <- H. apply IH.
Qed.

Lemma dispatch_decoder (nv : Stanza) (c : Connection) :
  decoder (final (dispatch nv c)) = decoder c.
Proof.
  destruct nv; try apply send_decoder. unfold dispatch.
  destruct (_ || _); [|apply send_decoder].
  unfold bind, Lock, get, Unlock, chan_send, delete_callback, ret.
  destruct (mu c); [reflexivity|]. cbn [callbacks add_log set_mu].
  destruct (callbacks c !! ID (SIQ iq)) as [ch|]; [|reflexivity].
  cbn [iqchans add_log set_mu]. destruct (iqchans c !! ch) as [k|]; [|reflexivity].
  destruct (cclosed k); [reflexivity|]. destruct (chan_ready k); reflexivity.
Qed.

(** A turn after which the loop goes on has used up a token. *)
Lemma read_iter_progress (c c' : Connection) :
  read_iter c = Ok true c' -> length (decoder c') < length (decoder c).
Proof.
  unfold read_iter, bind at 1, nextStartElement.
  pose proof (nextStartElement_loop_length (decoder c)) as Hlen.
  destruct (nextStartElement_loop (decoder c)) as [[[t|] e] rest]; cbn [fst].
  - set (c0 := set_decoder rest c).
    destruct (DecodeElement_decoder (new_stanza t) t c0) as (nv & c1 & Hdec & Hle).
    unfold bind at 1. rewrite Hdec. unfold bind.
    pose proof (dispatch_decoder nv c1) as Hd.
    destruct (dispatch nv c1) as [[] c2|c2|c2]; try discriminate.
    unfold ret. intros [= <-]. simpl in Hd. rewrite Hd.
    unfold c0 in Hle. simpl in Hle. lia.
  - unfold bind, Lock. destruct (mu (set_decoder rest c)); [discriminate|].
    unfold get.
    match goal with |- context [for_each chan_close ?l ?s] =>
      destruct (for_each chan_close l s) as [[] c2|c2|c2] end; try discriminate.
    destruct (Close c2) as [[] c3|c3|c3]; discriminate.
Qed.

Lemma read_loop_total (n : nat) : forall c : Connection,
  length (decoder c) < n -> read_loop n c <> None.
Proof.
  induction n as [|n IH]; intros c Hlen; [lia|].
  cbn [read_loop]. pose proof (read_iter_progress c) as Hp.
  destruct (read_iter c) as [[|] c'|c'|c']; try discriminate.
  apply IH. specialize (Hp c' eq_refl). lia.
Qed.

Lemma read_total (c : Connection) : read c <> None.
Proof. apply read_loop_total. lia. Qed.

(** * Fan-out to the subscribers *)

Lemma chan_fill_0 {A} (v : A) (k : chan A) : chan_fill v 0 k = k.
Proof. destruct k. unfold chan_fill. simpl. now rewrite app_nil_r. Qed.

Lemma chan_fill_full {A} (v : A) (n : nat) (k : chan A) :
  chan_ready k = false -> chan_fill v n k = k.
Proof.
  unfold chan_ready, chan_fill, chan_room. intros H.
  apply Nat.ltb_ge in H. destruct k as [cap buf cl]. simpl in *.
  replace (cap - length buf) with 0 by lia.
  rewrite Nat.min_0_r. simpl. now rewrite app_nil_r.
Qed.

Lemma chan_fill_push {A} (v : A) (n : nat) (k : chan A) :
  chan_ready k = true -> chan_fill v n (chan_push v k) = chan_fill v (S n) k.
Proof.
  unfold chan_ready, chan_fill, chan_push, chan_room. intros H.
  apply Nat.ltb_lt in H. destruct k as [cap buf cl].
  cbn [ccap cbuf cclosed] in *. f_equal. rewrite length_app. cbn [length].
  destruct (cap - length buf) as [|m] eqn:E; [lia|].
  replace (cap - (length buf + 1)) with m by lia.
  cbn [Nat.min repeat]. now rewrite <- app_assoc.
Qed.

Lemma occurrences_cons (ch a : nat) (l : list nat) :
  occurrences ch (a :: l) = if decide (a = ch) then S (occurrences ch l)
                            else occurrences ch l.
Proof.
  unfold occurrences. simpl. destruct (Nat.eq_dec a ch); case_decide; congruence.
Qed.

Lemma set_stchans_same (c : Connection) : set_stchans (stchans c) c = c.
Proof. now destruct c. Qed.

(** The loop of [send] over any list of sinks none of which is closed:
    each sink takes as many copies as it is listed, up to its room, and
    only the store of stanza channels changes. *)
Lemma for_each_try_send (stanza : Stanza) (l : list nat) : forall c : Connection,
  (forall ch k, ch ∈ l -> stchans c !! ch = Some k -> cclosed k = false) ->
  exists h,
    for_each (fun ch => try_send ch stanza) l c = Ok tt (set_stchans h c)
    /\ (forall ch, h !! ch
                   = chan_fill stanza (occurrences ch l) <$> stchans c !! ch).
Proof.
  induction l as [|a l IH]; intros c Hopen.
  - exists (stchans c). cbn [for_each]. unfold ret. rewrite set_stchans_same.
    split; [reflexivity|].
    intros ch. destruct (stchans c !! ch) as [k|]; [|reflexivity].
    cbn [fmap option_fmap option_map]. now rewrite chan_fill_0.
  - cbn [for_each]. unfold bind, try_send at 1.
    destruct (stchans c !! a) as [k|] eqn:Hk.
    + rewrite (Hopen a k) by (try left; assumption).
      destruct (chan_ready k) eqn:Hready.
      * set (c1 := set_stchans (<[a:=chan_push stanza k]> (stchans c)) c).
        destruct (IH c1) as (h & Hrun & Hall).
        { intros ch k' Hch Hk'. unfold c1 in Hk'. cbn [stchans set_stchans] in Hk'.
          destruct (decide (a = ch)) as [->|Hne].
          - rewrite lookup_insert_eq in Hk'. injection Hk' as <-.
            cbn [cclosed chan_push]. eapply Hopen; [left|exact Hk].
          - rewrite lookup_insert_ne in Hk' by exact Hne.
            eapply Hopen; [right; exact Hch|exact Hk']. }
        exists h. split; [exact Hrun|].
        intros ch. rewrite Hall, occurrences_cons. unfold c1.
        cbn [stchans set_stchans]. case_decide as E.
        -- subst ch. rewrite lookup_insert_eq, Hk.
           cbn [fmap option_fmap option_map]. now rewrite chan_fill_push.
        -- now rewrite lookup_insert_ne.
      * destruct (IH c) as (h & Hrun & Hall).
        { intros ch k' Hch. apply Hopen. now right. }
        exists h. split; [exact Hrun|].
        intros ch. rewrite Hall, occurrences_cons. case_decide as E; [|reflexivity].
        subst ch. rewrite Hk. cbn [fmap option_fmap option_map].
        now rewrite !chan_fill_full.
    + destruct (IH c) as (h & Hrun & Hall).
      { intros ch k' Hch. apply Hopen. now right. }
      exists h. split; [exact Hrun|].
      intros ch. rewrite Hall, occurrences_cons. case_decide as E; [|reflexivity].
      subst ch. now rewrite Hk.
Qed.

(** [send] never blocks, whatever the sinks. *)
Lemma send_never_blocks (stanza : Stanza) (c c' : Connection) :
  send stanza c <> Blocked c'.
Proof.
  unfold send, bind at 1. generalize (subscribers c) as l. intros l. revert c.
  induction l as [|a l IH]; intros c; [discriminate|].
  cbn [for_each]. unfold bind, try_send at 1.
  destruct (stchans c !! a) as [k|]; [|apply IH].
  destruct (cclosed k); [discriminate|].
  destruct (chan_ready k); apply IH.
Qed.

Lemma chan_fill_ready {A} (v : A) (n : nat) (k : chan A) :
  chan_ready k = true ->
  chan_fill v (S n) k
  = MkChan (ccap k) (cbuf k ++ v :: repeat v (n `min` (chan_room k - 1))) (cclosed k).
Proof.
  unfold chan_ready, chan_fill, chan_room. intros H. apply Nat.ltb_lt in H.
  destruct (ccap k - length (cbuf k)) as [|m] eqn:E; [lia|].
  replace (S m - 1) with m by lia. reflexivity.
Qed.

Lemma chan_fill_1 {A} (v : A) (k : chan A) :
  chan_ready k = true -> chan_fill v 1 k = chan_push v k.
Proof.
  intros H. rewrite chan_fill_ready by exact H. unfold chan_push.
  now rewrite Nat.min_0_l.
Qed.

Lemma occurrences_elem (ch : nat) (l : list nat) :
  ch ∈ l -> exists n, occurrences ch l = S n.
Proof.
  intros H. apply list_elem_of_In, (count_occ_In Nat.eq_dec) in H.
  unfold occurrences. destruct (count_occ Nat.eq_dec l ch) as [|n]; [lia|].
  now exists n.
Qed.

(** C5. In one fan-out every sink that can take a value at once
    receives the stanza, a sink that is full is skipped, what happens
    to one sink depends on that sink alone, and [send] returns: it never
    waits for a sink. *)
Theorem send_fans_out (stanza : Stanza) (c : Connection)
  (Hopen : forall ch k, ch ∈ subscribers c -> stchans c !! ch = Some k ->
                        cclosed k = false) :
  exists h,
    send stanza c = Ok tt (set_stchans h c)
    /\ (forall ch, h !! ch
                   = chan_fill stanza (occurrences ch (subscribers c))
                       <$> stchans c !! ch)
    /\ (forall ch k, ch ∈ subscribers c -> stchans c !! ch = Some k ->
                     chan_ready k = true ->
                     exists n, h !! ch
                               = Some (MkChan (ccap k)
                                         (cbuf k ++ stanza :: repeat stanza n)
                                         (cclosed k)))
    /\ (forall ch k, occurrences ch (subscribers c) = 1 ->
                     stchans c !! ch = Some k -> chan_ready k = true ->
                     h !! ch = Some (chan_push stanza k))
    /\ (forall ch k, stchans c !! ch = Some k -> chan_ready k = false ->
                     h !! ch = Some k).
Proof.
  destruct (for_each_try_send stanza (subscribers c) c Hopen) as (h & Hrun & Hall).
  exists h. split; [exact Hrun|]. split; [exact Hall|].
  split; [|split].
  - intros ch k Hch Hk Hready. rewrite Hall, Hk.
    destruct (occurrences_elem ch _ Hch) as [n ->].
    cbn [fmap option_fmap option_map]. rewrite chan_fill_ready by exact Hready.
    eexists. reflexivity.
  - intros ch k Hocc Hk Hready. rewrite Hall, Hk, Hocc.
    cbn [fmap option_fmap option_map]. now rewrite chan_fill_1.
  - intros ch k Hk Hfull. rewrite Hall, Hk.
    cbn [fmap option_fmap option_map]. now rewrite chan_fill_full.
Qed.

Lemma three_sinks_open (ch : nat) (k : chan Stanza) :
  ch ∈ subscribers three_sinks -> stchans three_sinks !! ch = Some k ->
  cclosed k = false.
Proof.
  intros Hin. unfold three_sinks, alice, new_Connection in *. conn_simpl.
  repeat (apply elem_of_cons in Hin as [->|Hin]);
    try (vm_compute; intros H; injection H as <-; reflexivity).
  inversion Hin.
Qed.

Lemma send_fans_out_witness :
  exists h,
    send (SIQ push1) three_sinks = Ok tt (set_stchans h three_sinks)
    /\ (forall ch, h !! ch
                   = chan_fill (SIQ push1) (occurrences ch (subscribers three_sinks))
                       <$> stchans three_sinks !! ch)
    /\ (forall ch k, ch ∈ subscribers three_sinks ->
                     stchans three_sinks !! ch = Some k ->
                     chan_ready k = true ->
                     exists n, h !! ch
                               = Some (MkChan (ccap k)
                                         (cbuf k ++ SIQ push1 :: repeat (SIQ push1) n)
                                         (cclosed k)))
    /\ (forall ch k, occurrences ch (subscribers three_sinks) = 1 ->
                     stchans three_sinks !! ch = Some k -> chan_ready k = true ->
                     h !! ch = Some (chan_push (SIQ push1) k))
    /\ (forall ch k, stchans three_sinks !! ch = Some k -> chan_ready k = false ->
                     h !! ch = Some k).
Proof.
  apply (send_fans_out (SIQ push1) three_sinks). exact three_sinks_open.
Defined.

(** On the three sinks of the example: the empty sink takes the stanza,
    the full one is skipped, and the sink listed twice takes it twice. *)
Example send_three_sinks :
  let c' := final (send (SIQ push1) three_sinks) in
  returned (send (SIQ push1) three_sinks) = true
  /\ cbuf <$> stchans c' !! 0 = Some [SIQ push1]
  /\ cbuf <$> stchans c' !! 1 = Some [SNil]
  /\ cbuf <$> stchans c' !! 2 = Some [SIQ push1; SIQ push1].
Proof. vm_compute. repeat split. Qed.

(** * The roster layer *)

Section roster_push.
Context {C : Type} `{rfc6121.Client C}.

(** Whatever implements the client interface, the answer to a roster
    push is one call of its [SendIQReply]. *)
Lemma read_stanza_roster_push (iq : IQ) (c : C) :
  Space (Query iq) = "jabber:iq:roster" ->
  Type_ (iq_Header iq) = "set" ->
  rfc6121.read_stanza (SIQ iq) c
  = rfc6121.SendIQReply EmptyString "result" (Id (iq_Header iq)) None c.
Proof.
  intros Hns Hty. unfold rfc6121.read_stanza. now rewrite Hns, Hty.
Qed.

(** Any other IQ is left alone by this layer. *)
Lemma read_stanza_other_iq (iq : IQ) (c : C) :
  Space (Query iq) <> "jabber:iq:roster" \/ Type_ (iq_Header iq) <> "set" ->
  rfc6121.read_stanza (SIQ iq) c = Ok tt c.
Proof.
  intros Hne. unfold rfc6121.read_stanza.
  destruct (String.eqb_spec (Space (Query iq)) "jabber:iq:roster");
    destruct (String.eqb_spec (Type_ (iq_Header iq)) "set");
    try reflexivity.
  destruct Hne; contradiction.
Qed.
End roster_push.

Lemma SendIQReply_wire (to typ id : string) (value : option string) (c : Connection) :
  SendIQReply to typ id value c
  = Ok tt (set_wire (wire c
                       +:+ iq_start (toAttr_of to) (xmlEscape (jid c)) (xmlEscape typ) id
                       +:+ match value with Some bytes => bytes | None => EmptyString end
                       +:+ "</iq>") c).
Proof.
  unfold SendIQReply, bind, get, Write, Encode, ret.
  destruct value as [bytes|]; unfold Write; conn_simpl;
    autorewrite with str; reflexivity.
Qed.

(** C10. For every inbound IQ whose query is in the name space
    jabber:iq:roster and whose type is set, the rfc6121 layer sends an
    IQ reply of type result with the id of the stanza, no [to] and no
    payload, and does nothing else. *)
Theorem roster_push_is_answered (c : Connection) (iq : IQ)
  (Hns : Space (Query iq) = "jabber:iq:roster")
  (Hty : Type_ (iq_Header iq) = "set") :
  rfc6121.read_stanza (SIQ iq) c
  = SendIQReply EmptyString "result" (Id (iq_Header iq)) None c
  /\ rfc6121.read_stanza (SIQ iq) c
     = Ok tt (set_wire (wire c
                          +:+ "<iq  from='" +:+ xmlEscape (jid c)
                          +:+ "' type='result' id='" +:+ Id (iq_Header iq)
                          +:+ "'></iq>") c).
Proof.
  pose proof (read_stanza_roster_push iq c Hns Hty) as Hcall.
  split; [exact Hcall|].
  rewrite Hcall. change (rfc6121.SendIQReply EmptyString "result"
                           (Id (iq_Header iq)) None c)
    with (SendIQReply EmptyString "result" (Id (iq_Header iq)) None c).
  rewrite SendIQReply_wire. unfold iq_start, toAttr_of. cbn [String.length Nat.ltb Nat.leb].
  change (xmlEscape "result") with "result".
  autorewrite with str. reflexivity.
Qed.

Lemma roster_push_is_answered_witness :
  rfc6121.read_stanza (SIQ push1) (alice [])
  = SendIQReply EmptyString "result" "push-1" None (alice [])
  /\ rfc6121.read_stanza (SIQ push1) (alice [])
     = Ok tt (set_wire (wire (alice [])
                          +:+ "<iq  from='" +:+ xmlEscape (jid (alice []))
                          +:+ "' type='result' id='" +:+ "push-1"
                          +:+ "'></iq>") (alice [])).
Proof.
  apply (roster_push_is_answered (alice []) push1); reflexivity.
Defined.

(** * The start tag of an IQ *)

#[local] Arguments String.append !s1 s2 : simpl nomatch.

Lemma has_byte_app (c : ascii) (a b : string) :
  has_byte c (a +:+ b) = has_byte c a || has_byte c b.
Proof.
  induction a as [|x a IH]; simpl; [reflexivity|].
  now rewrite IH, orb_assoc.
Qed.








(** What the reader refuses, and what it takes. *)
Example iq_attrs_grammar :
  iq_attrs "<iqa='1'b='2'>" = None
  /\ iq_attrs "<iq a='1'b='2'>" = None
  /\ iq_attrs "<iq id='a<b'>" = None
  /\ iq_attrs "<iq id='a&b'>" = None
  /\ iq_attrs "<iq to='x' to='y'>" = None
  /\ iq_attrs "<iq id = 'a&lt;b' />" = Some [("id", "a&lt;b")].
Proof. repeat split. Qed.




(** C9 at the failing input. [SendIQReply] writes the id as it comes.
    Called with no recipient and the id [forged_id], it writes a start
    tag that carries a [to] attribute all the same. *)
Theorem SendIQReply_forged_id_carries_to :
  String.length EmptyString = 0
  /\ SendIQReply EmptyString "result" forged_id None (alice [])
     = Ok tt (set_wire
                "<iq  from='' type='result' id='1' to='mallory@example.net'></iq>"
                (alice []))
  /\ iq_attrs "<iq  from='' type='result' id='1' to='mallory@example.net'></iq>"
     = Some [("from", EmptyString); ("type", "result"); ("id", "1");
             ("to", "mallory@example.net")]
  /\ has_attr "to" [("from", EmptyString); ("type", "result"); ("id", "1");
                    ("to", "mallory@example.net")] = true.
Proof. repeat split. Qed.

(** The peer chooses that id: the answer of the roster layer to the push
    [forged_push] is addressed to whom the id says. *)
Example roster_push_forged_id :
  (iq_attrs ∘ wire ∘ final) (rfc6121.read_stanza (SIQ forged_push) (alice []))
  = Some [("from", EmptyString); ("type", "result"); ("id", "1");
          ("to", "mallory@example.net")].
Proof. reflexivity. Qed.

(** * The router, end to end *)

(** One turn of [read] on a start element is the decoding of the
    element followed by [dispatch]. *)
Lemma read_iter_dispatch (c c1 c2 : Connection) (t : StartElement) (nv : Stanza)
      (e : option error) :
  nextStartElement c = Ok (Some t, e) c1 ->
  DecodeElement (new_stanza t) t c1 = Ok nv c2 ->
  read_iter c = (dispatch nv ;;; ret true) c2.
Proof.
  intros Hnext Hdec. unfold read_iter. unfold bind at 1. rewrite Hnext.
  cbn [fst]. unfold bind at 1. now rewrite Hdec.
Qed.

(** The session [waiting] reads its response and then the closing tag:
    the response is in the slot, the table is empty, the slot was never
    closed, the closing tag has been written and the mutex is still
    held by the router that returned. *)
Example read_delivers_then_ends :
  let o := read (set_decoder result0_tokens waiting) in
  (returned <$> o) = Some true
  /\ ((fun c' => iqchans c' !! 0) ∘ final <$> o) = Some (Some (MkChan 1 [result0] false))
  /\ ((fun c' => callbacks c' !! "0") ∘ final <$> o) = Some None
  /\ (wire ∘ final <$> o) = Some "</stream:stream>"
  /\ (mu ∘ final <$> o) = Some true
  /\ (log ∘ final <$> o)
     = Some [EvLock; EvSend 0 result0; EvDelete "0"; EvUnlock; EvLock].
Proof. vm_compute. repeat split. Qed.

(** * The states of a session *)

Lemma set_decoder_same (c : Connection) : set_decoder (decoder c) c = c.
Proof. now destruct c. Qed.

Lemma DecodeElement_frame (nv : Stanza) (t : StartElement) (c : Connection) :
  exists nv' d, DecodeElement nv t c = Ok nv' (set_decoder d c).
Proof.
  destruct (DecodeElement_reads nv t c) as (nv' & d & H & _). now exists nv', d.
Qed.

Lemma for_each_try_send_frame (stanza : Stanza) (l : list nat) :
  forall c c' : Connection,
    for_each (fun ch => try_send ch stanza) l c = Ok tt c' ->
    exists h, c' = set_stchans h c.
Proof.
  induction l as [|a l IH]; intros c c'.
  - cbn [for_each]. unfold ret. intros [= <-]. exists (stchans c).
    now rewrite set_stchans_same.
  - cbn [for_each]. unfold bind, try_send at 1.
    destruct (stchans c !! a) as [k|]; [|apply IH].
    destruct (cclosed k); [discriminate|].
    destruct (chan_ready k); [|apply IH].
    intros Hrun. apply IH in Hrun as [h ->]. now exists h.
Qed.

(** The fan-out changes the store of stanza channels and nothing else. *)
Lemma send_frame (stanza : Stanza) (c c' : Connection) :
  send stanza c = Ok tt c' -> exists h, c' = set_stchans h c.
Proof. unfold send, bind at 1. apply for_each_try_send_frame. Qed.

Lemma dispatch_invariant (nv : Stanza) (c c' : Connection) :
  mu c = false -> callbacks_ok c -> dispatch nv c = Ok tt c' ->
  mu c' = false /\ callbacks_ok c'.
Proof.
  intros Hmu Hok Hrun.
  assert (Hsend : send nv c = Ok tt c' -> mu c' = false /\ callbacks_ok c').
  { intros Hs. apply send_frame in Hs as [h ->]. now split. }
  destruct nv as [| | | |iq| |]; try (apply Hsend; exact Hrun).
  destruct (String.eqb_spec (Type_ (iq_Header iq)) "result") as [E1|N1];
    [|destruct (String.eqb_spec (Type_ (iq_Header iq)) "error") as [E2|N2]].
  3: { apply Hsend. unfold dispatch in Hrun.
       destruct (String.eqb_spec (Type_ (iq_Header iq)) "result"); [contradiction|].
       destruct (String.eqb_spec (Type_ (iq_Header iq)) "error"); [contradiction|].
       exact Hrun. }
  all: assert (Hty : Type_ (iq_Header iq) = "result" \/ Type_ (iq_Header iq) = "error")
         by tauto.
  all: destruct (callbacks c !! Id (iq_Header iq)) as [ch|] eqn:Hid;
    [ rewrite (dispatch_known_id c iq ch Hmu Hty Hid (proj1 Hok _ _ Hid)) in Hrun;
      injection Hrun as <-; split; [reflexivity|];
      now apply table_ok_delete
    | destruct (dispatch_unknown_id c iq Hmu Hty Hid)
        as (c'' & Hd & Hiq & _ & Hcb & _ & Hmu'');
      rewrite Hd in Hrun; injection Hrun as <-; split; [exact Hmu''|];
      unfold callbacks_ok; now rewrite Hiq, Hcb ].
Qed.

(** X27. In every state of a session the mutex is free between two
    calls and the callback table is as [SendIQ] builds it: what the
    theorems on the router assume of the connection always holds. *)
Lemma session_invariant (c : Connection) :
  session c -> mu c = false /\ callbacks_ok c.
Proof.
  induction 1 as [u h p toks
                 |c to typ value r c' _ [Hmu Hok] Hrun
                 |c to typ id value c' _ [Hmu Hok] Hrun
                 |c n r c' _ [Hmu Hok] Hrun
                 |c ch c' _ [Hmu Hok] Hrun
                 |c stanza c' _ [Hmu Hok] Hrun
                 |c c' _ [Hmu Hok] Hrun
                 |c c' _ [Hmu Hok] Hrun].
  - split; [reflexivity | apply callbacks_ok_new].
  - destruct (SendIQ_callbacks_ok to typ value c Hmu Hok)
      as (r' & c'' & Hrun' & _ & _ & _ & Hmu' & Hok').
    rewrite Hrun' in Hrun. injection Hrun as _ <-. now split.
  - rewrite SendIQReply_wire in Hrun. injection Hrun as <-. now split.
  - unfold make_stchan in Hrun. injection Hrun as _ <-. now split.
  - unfold SubscribeStanzas, subscribe in Hrun. injection Hrun as <-. now split.
  - apply send_frame in Hrun as [h ->]. now split.
  - destruct (Close_returns c) as (c'' & HClose & Hiq & _ & Hcb & Hmu').
    rewrite HClose in Hrun. injection Hrun as <-.
    split; [now rewrite Hmu'|]. unfold callbacks_ok. now rewrite Hiq, Hcb.
  - unfold read_iter, bind at 1, nextStartElement in Hrun.
    destruct (nextStartElement_loop (decoder c)) as [[[t|] e] rest]; cbn [fst] in Hrun.
    + destruct (DecodeElement_frame (new_stanza t) t (set_decoder rest c))
        as (nv & d & Hdec).
      unfold bind at 1 in Hrun. rewrite Hdec in Hrun. unfold bind in Hrun.
      destruct (dispatch nv (set_decoder d (set_decoder rest c)))
        as [[] c2|c2|c2] eqn:Hd; try discriminate Hrun.
      unfold ret in Hrun. injection Hrun as <-.
      eapply dispatch_invariant; [| |exact Hd]; [exact Hmu|exact Hok].
    + unfold bind, Lock in Hrun.
      destruct (mu (set_decoder rest c)); [discriminate|]. unfold get in Hrun.
      match type of Hrun with context [for_each chan_close ?l ?s] =>
        destruct (for_each chan_close l s) as [[] c2|c2|c2] end;
        try discriminate Hrun.
      destruct (Close c2) as [[] c3|c3|c3]; discriminate Hrun.
Qed.

(** * Further properties of the client core *)

(** ** Choice of a mechanism *)

Lemma among_elem (our : string) (theirs : list string) :
  among our theirs = true <-> our ∈ theirs.
Proof.
  induction theirs as [|their rest IH]; simpl.
  - split; [discriminate | intros H; inversion H].
  - destruct (String.eqb_spec our their) as [->|Hne].
    + split; [intros _; left | reflexivity].
    + rewrite IH, elem_of_cons. split; [now right | intros [?|?]; [contradiction|assumption]].
Qed.

(** X1. [findCompatibleMechanism] returns the first of our mechanisms
    that the peer offers too, and the empty string when there is none. *)
Theorem findCompatibleMechanism_first_common (ours theirs : list string) :
  findCompatibleMechanism ours theirs
  = default EmptyString (head (filter (fun our => our ∈ theirs) ours)).
Proof.
  induction ours as [|our rest IH]; [reflexivity|].
  cbn [findCompatibleMechanism]. rewrite filter_cons.
  destruct (among our theirs) eqn:E.
  - apply among_elem in E. now rewrite decide_True.
  - assert (our ∉ theirs) by (intros Hin; apply among_elem in Hin; congruence).
    now rewrite decide_False.
Qed.

(** ** Reading up to a start element *)

Lemma nextStartElement_loop_read_over (skipped : list Token) (t : StartElement)
      (rest : list Token) :
  forallb read_over skipped = true ->
  nextStartElement_loop (skipped ++ TStartElement t :: rest) = ((Some t, None), rest).
Proof.
  induction skipped as [|x skipped IH]; intros H; [reflexivity|].
  cbn [forallb] in H. apply andb_prop in H as [Hx H].
  destruct x as [t'|n|s|]; cbn [app nextStartElement_loop].
  - discriminate Hx.
  - cbn [read_over] in Hx. apply negb_true_iff in Hx. rewrite Hx. now apply IH.
  - now apply IH.
  - now apply IH.
Qed.

Lemma nextStartElement_loop_closing_tag (skipped : list Token) (n : Name)
      (rest : list Token) :
  forallb read_over skipped = true -> is_stream_end n = true ->
  nextStartElement_loop (skipped ++ TEndElement n :: rest) = ((None, None), rest).
Proof.
  induction skipped as [|x skipped IH]; intros H Hn.
  - cbn [app nextStartElement_loop]. now rewrite Hn.
  - cbn [forallb] in H. apply andb_prop in H as [Hx H].
    destruct x as [t'|n'|s|]; cbn [app nextStartElement_loop].
    + discriminate Hx.
    + cbn [read_over] in Hx. apply negb_true_iff in Hx. rewrite Hx. now apply IH.
    + now apply IH.
    + now apply IH.
Qed.

Lemma nextStartElement_found (c : Connection) (skipped : list Token)
      (t : StartElement) (rest : list Token) :
  decoder c = skipped ++ TStartElement t :: rest ->
  forallb read_over skipped = true ->
  nextStartElement c = Ok (Some t, None) (set_decoder rest c).
Proof.
  intros Hdec Hskip. unfold nextStartElement. rewrite Hdec.
  now rewrite nextStartElement_loop_read_over.
Qed.

(** X2. [nextStartElement] reads over character data, comments and the
    end tags of anything but the stream, and returns the first start
    element with no error, leaving the decoder right after its start
    tag. *)
Theorem nextStartElement_reads_over (c : Connection) (skipped : list Token)
        (t : StartElement) (rest : list Token)
  (Hdec : decoder c = skipped ++ TStartElement t :: rest)
  (Hskip : forallb read_over skipped = true) :
  nextStartElement c = Ok (Some t, None) (set_decoder rest c).
Proof.
  unfold nextStartElement. rewrite Hdec.
  now rewrite nextStartElement_loop_read_over.
Qed.

Lemma nextStartElement_reads_over_witness :
  nextStartElement
    (alice [TCharData " "; TEndElement (MkName nsClient "iq"); TOther;
            TStartElement (opener "1.0"); TCharData "x"])
  = Ok (Some (opener "1.0"), None)
       (set_decoder [TCharData "x"]
          (alice [TCharData " "; TEndElement (MkName nsClient "iq"); TOther;
                  TStartElement (opener "1.0"); TCharData "x"])).
Proof.
  apply (nextStartElement_reads_over _
           [TCharData " "; TEndElement (MkName nsClient "iq"); TOther]);
    reflexivity.
Defined.

(** ** The opener of the peer, the other ways *)

(** X3. An opener whose local name is not [stream] is refused with
    [UnexpectedMessage] of that name; nothing is written and the stream
    is not closed. *)
Theorem receiveStream_unexpected_element (c c1 : Connection) (t : StartElement)
  (Hnext : nextStartElement c = Ok (Some t, None) c1)
  (Hlocal : Local (se_Name t) <> "stream") :
  receiveStream c = Ok (Some (UnexpectedMessage (Local (se_Name t)))) c1
  /\ wire c1 = wire c /\ closing c1 = closing c.
Proof.
  split.
  - unfold receiveStream, bind. rewrite Hnext. cbn [fst snd].
    destruct (String.eqb_spec (Local (se_Name t)) "stream"); [contradiction|].
    reflexivity.
  - unfold nextStartElement in Hnext.
    destruct (nextStartElement_loop (decoder c)) as [r rest].
    injection Hnext as _ <-. now split.
Qed.

Lemma receiveStream_unexpected_element_witness :
  let c := alice [TStartElement (MkStart (MkName nsStream "features") [])] in
  receiveStream c = Ok (Some (UnexpectedMessage "features")) (set_decoder [] c)
  /\ wire (set_decoder [] c) = wire c /\ closing (set_decoder [] c) = closing c.
Proof.
  intros c.
  apply (receiveStream_unexpected_element c (set_decoder [] c)
           (MkStart (MkName nsStream "features") [])).
  - reflexivity.
  - discriminate.
Defined.

(** X4. An opener named [stream] in another name space makes
    [receiveStream] write the invalid-namespace stream error and call
    [Close], and then return no error at all: on a connection not yet
    closing, the error and the closing tag are on the wire, [closing] is
    set, and the caller is told nothing. *)
Theorem receiveStream_invalid_namespace (c c1 : Connection) (t : StartElement)
  (Hnext : nextStartElement c = Ok (Some t, None) c1)
  (Hlocal : Local (se_Name t) = "stream")
  (Hspace : Space (se_Name t) <> nsStream)
  (Hopen : closing c = false) :
  exists c',
    receiveStream c = Ok None c'
    /\ wire c'
       = wire c
           +:+ "<stream:error><invalid-namespace xmlns='urn:ietf:params:xml:ns:xmpp-streams'/>"
           +:+ "</stream:stream>"
    /\ closing c' = true
    /\ conn_open c' = conn_open c.
Proof.
  assert (Hc1 : wire c1 = wire c /\ closing c1 = closing c /\ conn_open c1 = conn_open c).
  { unfold nextStartElement in Hnext.
    destruct (nextStartElement_loop (decoder c)) as [r rest].
    injection Hnext as _ <-. now repeat split. }
  destruct Hc1 as (Hw & Hcl & Hco).
  unfold receiveStream, bind at 1. rewrite Hnext. cbn [fst snd].
  rewrite Hlocal, String.eqb_refl. cbn [negb].
  destruct (String.eqb_spec (Space (se_Name t)) "http://etherx.jabber.org/streams")
    as [E|_]; [contradiction|]. cbn [negb].
  unfold Close. unfold bind, Write, get, ret. conn_simpl.
  rewrite Hcl, Hopen. conn_simpl.
  eexists. split; [reflexivity|]. conn_simpl.
  rewrite Hw, Hco. autorewrite with str. now repeat split.
Qed.

Lemma receiveStream_invalid_namespace_witness :
  exists c',
    receiveStream (alice [TStartElement (MkStart (MkName nsClient "stream") [])])
    = Ok None c'
    /\ wire c'
       = wire (alice [TStartElement (MkStart (MkName nsClient "stream") [])])
           +:+ "<stream:error><invalid-namespace xmlns='urn:ietf:params:xml:ns:xmpp-streams'/>"
           +:+ "</stream:stream>"
    /\ closing c' = true
    /\ conn_open c'
       = conn_open (alice [TStartElement (MkStart (MkName nsClient "stream") [])]).
Proof.
  apply (receiveStream_invalid_namespace
           (alice [TStartElement (MkStart (MkName nsClient "stream") [])])
           (set_decoder []
              (alice [TStartElement (MkStart (MkName nsClient "stream") [])]))
           (MkStart (MkName nsClient "stream") [])).
  - reflexivity.
  - reflexivity.
  - discriminate.
  - reflexivity.
Defined.

Lemma nextStartElement_loop_exhausted (skipped : list Token) :
  forallb read_over skipped = true ->
  nextStartElement_loop skipped = ((None, Some DecoderError), []).
Proof.
  induction skipped as [|x skipped IH]; intros H; [reflexivity|].
  cbn [forallb] in H. apply andb_prop in H as [Hx H].
  destruct x as [t'|n'|s|]; cbn [nextStartElement_loop]; auto.
  - discriminate Hx.
  - cbn [read_over] in Hx. apply negb_true_iff in Hx. rewrite Hx. auto.
Qed.

(** When the decoder fails before any opener, its error is returned. *)
Lemma receiveStream_decoder_error (c : Connection) :
  forallb read_over (decoder c) = true ->
  receiveStream c = Ok (Some DecoderError) (set_decoder [] c).
Proof.
  intros H. unfold receiveStream, bind, nextStartElement.
  now rewrite nextStartElement_loop_exhausted.
Qed.

(** The decoder yields the end tag of the stream only for a stream whose
    opener it has itself read.  Where [receiveStream] meets that end
    tag, the element it was given is nil and the dereference panics. *)
Lemma receiveStream_nil_element (c : Connection) (skipped : list Token)
        (n : Name) (rest : list Token)
  (Hdec : decoder c = skipped ++ TEndElement n :: rest)
  (Hskip : forallb read_over skipped = true)
  (Hn : is_stream_end n = true) :
  receiveStream c = Panic (set_decoder rest c).
Proof.
  unfold receiveStream, bind, nextStartElement.
  rewrite Hdec, nextStartElement_loop_closing_tag by assumption. reflexivity.
Qed.

Lemma stream_version_last (l1 l2 : list Attr) (a : Attr) (v0 : string) :
  Local (attr_Name a) = "version" ->
  Forall (fun b => Local (attr_Name b) <> "version") l2 ->
  stream_version v0 (l1 ++ a :: l2) = attr_Value a.
Proof.
  intros Ha Hl2. revert v0. induction l1 as [|b l1 IH]; intros v0.
  - cbn [app stream_version]. rewrite Ha. cbn [String.eqb].
    change (("version" =? "version")%string) with true. cbv iota.
    now apply stream_version_absent.
  - cbn [app stream_version]. destruct (_ =? _)%string; apply IH.
Qed.

(** X6. The version [receiveStream] judges is the value of the last
    attribute whose local name is [version], in whatever name space it
    stands and whatever versions stand before it. *)
Theorem receiveStream_last_version_decides (c c1 : Connection) (t : StartElement)
        (l1 l2 : list Attr) (ns v : string)
  (Hnext : nextStartElement c = Ok (Some t, None) c1)
  (Hlocal : Local (se_Name t) = "stream")
  (Hspace : Space (se_Name t) = nsStream)
  (Hattr : se_Attr t = l1 ++ MkAttr (MkName ns "version") v :: l2)
  (Hlast : Forall (fun b => Local (attr_Name b) <> "version") l2)
  (Hv : v <> EmptyString) :
  receiveStream c
  = Ok (if (major v =? "1")%string then None else Some (UnsupportedVersion v)) c1.
Proof.
  rewrite (receiveStream_by_version c c1 t Hnext Hlocal Hspace). cbv zeta.
  rewrite Hattr, stream_version_last by (try reflexivity; assumption).
  cbn [attr_Value].
  destruct (String.eqb_spec v EmptyString); [contradiction|reflexivity].
Qed.

Lemma receiveStream_last_version_decides_witness :
  let t := MkStart (MkName nsStream "stream")
             [MkAttr (MkName EmptyString "version") "1.0";
              MkAttr (MkName "urn:other" "version") "3.1";
              MkAttr (MkName EmptyString "id") "s1"] in
  receiveStream (alice [TStartElement t])
  = Ok (if (major "3.1" =? "1")%string then None
        else Some (UnsupportedVersion "3.1"))
       (set_decoder [] (alice [TStartElement t])).
Proof.
  intros t.
  apply (receiveStream_last_version_decides (alice [TStartElement t])
           (set_decoder [] (alice [TStartElement t])) t
           [MkAttr (MkName EmptyString "version") "1.0"]
           [MkAttr (MkName EmptyString "id") "s1"] "urn:other" "3.1").
  - reflexivity.
  - reflexivity.
  - reflexivity.
  - reflexivity.
  - repeat constructor; discriminate.
  - discriminate.
Defined.

(** ** The answer to the SASL request *)

(** X7. Whatever element the server answers that is not [success], a
    [failure] for one, [sasl] returns as it would have had nothing gone
    wrong: the request is written, the answer's start tag is read, no
    error is raised and the features are left as they were; on [success]
    the features are reset and the decoder is replaced by a new one. *)
Theorem sasl_failure_goes_unreported (c : Connection) (skipped : list Token)
        (t : StartElement) (rest : list Token)
  (Hdec : decoder c = skipped ++ TStartElement t :: rest)
  (Hskip : forallb read_over skipped = true) :
  sasl c
  = Ok tt (if (Local (se_Name t) =? "success")%string
           then set_features []
                  (set_later (tl (later c))
                     (set_decoder (hd [] (later c))
                        (set_wire (wire c +:+ auth_element c) c)))
           else set_decoder rest (set_wire (wire c +:+ auth_element c) c)).
Proof.
  unfold sasl, bind, get, Write, nextStartElement. conn_simpl.
  rewrite Hdec, nextStartElement_loop_read_over by exact Hskip. cbn [fst].
  fold (auth_element c).
  destruct (Local (se_Name t) =? "success")%string; reflexivity.
Qed.

Lemma sasl_failure_goes_unreported_witness :
  let t := MkStart (MkName nsSASL "failure") [] in
  sasl (alice [TStartElement t])
  = Ok tt (if (Local (se_Name t) =? "success")%string
           then set_features []
                  (set_later (tl (later (alice [TStartElement t])))
                     (set_decoder (hd [] (later (alice [TStartElement t])))
                        (set_wire (wire (alice [TStartElement t])
                                     +:+ auth_element (alice [TStartElement t]))
                           (alice [TStartElement t]))))
           else set_decoder []
                  (set_wire (wire (alice [TStartElement t])
                               +:+ auth_element (alice [TStartElement t]))
                     (alice [TStartElement t]))).
Proof.
  intros t. apply (sasl_failure_goes_unreported (alice [TStartElement t]) [] t []);
    reflexivity.
Defined.

(** X8. When the stream ends instead of an answer, [sasl] has written
    its request and then panics on the nil element. *)
Theorem sasl_end_of_stream_panics (c : Connection)
  (Heos : end_of_stream (decoder c)) :
  exists c', sasl c = Panic c' /\ wire c' = wire c +:+ auth_element c.
Proof.
  apply nextStartElement_loop_nil in Heos.
  unfold sasl, bind, get, Write, nextStartElement. conn_simpl.
  destruct (nextStartElement_loop (decoder c)) as [[t e] rest]. simpl in Heos.
  subst t. cbn [fst]. eexists. split; reflexivity.
Qed.

Lemma sasl_end_of_stream_panics_witness :
  exists c', sasl (alice []) = Panic c'
             /\ wire c' = wire (alice []) +:+ auth_element (alice []).
Proof. apply (sasl_end_of_stream_panics (alice [])). constructor. Defined.

(** ** The stream ends after a failed authentication *)

Lemma sasl_answered (c : Connection) (skipped : list Token)
      (t : StartElement) (rest : list Token) :
  decoder c = skipped ++ TStartElement t :: rest ->
  forallb read_over skipped = true ->
  sasl c
  = Ok tt (if (Local (se_Name t) =? "success")%string
           then set_features []
                  (set_later (tl (later c))
                     (set_decoder (hd [] (later c))
                        (set_wire (wire c +:+ auth_element c) c)))
           else set_decoder rest (set_wire (wire c +:+ auth_element c) c)).
Proof.
  intros Hdec Hskip.
  unfold sasl, bind, get, Write, nextStartElement. conn_simpl.
  rewrite Hdec, nextStartElement_loop_read_over by exact Hskip. cbn [fst].
  fold (auth_element c).
  destruct (Local (se_Name t) =? "success")%string; reflexivity.
Qed.

(** X5. On one decoder, as in the loop of [Dial]: the opener of the peer
    is accepted, the SASL request is answered by anything but
    [success], so that the decoder is not replaced, and the peer then
    closes the stream it had opened.  The first [receiveStream] returns
    no error, [sasl] returns, and the second [receiveStream]
    dereferences the nil element it is given and panics, the request of
    [sasl] being all that was written. *)
Theorem receiveStream_after_sasl_failure_panics (c : Connection)
        (before skipped answered rest : list Token) (t ans : StartElement)
        (n : Name)
  (Hdec : decoder c
          = before ++ TStartElement t
              :: skipped ++ TStartElement ans
              :: answered ++ TEndElement n :: rest)
  (Hbefore : forallb read_over before = true)
  (Hlocal : Local (se_Name t) = "stream")
  (Hspace : Space (se_Name t) = nsStream)
  (Hversion : major (stream_version EmptyString (se_Attr t)) = "1")
  (Hskip : forallb read_over skipped = true)
  (Hans : Local (se_Name ans) <> "success")
  (Hanswered : forallb read_over answered = true)
  (Hn : is_stream_end n = true) :
  receiveStream c
  = Ok None (set_decoder (skipped ++ TStartElement ans
                            :: answered ++ TEndElement n :: rest) c)
  /\ (receiveStream ;;; sasl ;;; receiveStream) c
     = Panic (set_decoder rest (set_wire (wire c +:+ auth_element c) c)).
Proof.
  assert (H1 : receiveStream c
               = Ok None (set_decoder (skipped ++ TStartElement ans
                                         :: answered ++ TEndElement n :: rest) c)).
  { rewrite (receiveStream_by_version c _ t
               (nextStartElement_found c before t _ Hdec Hbefore)
               Hlocal Hspace).
    cbv zeta. destruct (String.eqb_spec (stream_version EmptyString (se_Attr t))
                          EmptyString) as [E|_].
    - rewrite E in Hversion. discriminate Hversion.
    - now rewrite Hversion. }
  split; [exact H1|].
  unfold bind at 1. rewrite H1. unfold bind at 1.
  rewrite (sasl_answered _ skipped ans (answered ++ TEndElement n :: rest))
    by (try exact Hskip; reflexivity).
  destruct (String.eqb_spec (Local (se_Name ans)) "success") as [E|_];
    [contradiction|].
  rewrite (receiveStream_nil_element _ answered n rest)
    by (try exact Hanswered; try exact Hn; reflexivity).
  conn_simpl. reflexivity.
Qed.

Lemma receiveStream_after_sasl_failure_panics_witness :
  let c := alice [TStartElement (opener "1.0");
                  TStartElement (MkStart (MkName nsSASL "failure") []);
                  TEndElement (MkName nsSASL "failure");
                  TEndElement (MkName nsStream "stream")] in
  receiveStream c
  = Ok None (set_decoder ([] ++ TStartElement (MkStart (MkName nsSASL "failure") [])
                            :: [TEndElement (MkName nsSASL "failure")]
                            ++ TEndElement (MkName nsStream "stream") :: []) c)
  /\ (receiveStream ;;; sasl ;;; receiveStream) c
     = Panic (set_decoder [] (set_wire (wire c +:+ auth_element c) c)).
Proof.
  intros c.
  apply (receiveStream_after_sasl_failure_panics c [] [] 
           [TEndElement (MkName nsSASL "failure")] [] (opener "1.0")
           (MkStart (MkName nsSASL "failure") []) (MkName nsStream "stream")).
  - reflexivity.
  - reflexivity.
  - reflexivity.
  - reflexivity.
  - reflexivity.
  - reflexivity.
  - discriminate.
  - reflexivity.
  - reflexivity.
Defined.

(** ** What the router does with the other stanzas *)

(** X9. An element of a name the router does not know is sent on to the
    subscribers as a nil stanza, and nothing of it but the start tag is
    read: each sink takes the nil as it would a stanza, and the decoder
    stands right after the start tag, so that the children of the
    element are the next the router reads. *)
Theorem read_unknown_element (c c1 : Connection) (t : StartElement)
        (e : option error)
  (Hnext : nextStartElement c = Ok (Some t, e) c1)
  (Hunknown : new_stanza t = SNil)
  (Hopen : forall ch k, ch ∈ subscribers c1 -> stchans c1 !! ch = Some k ->
                        cclosed k = false) :
  exists h,
    read_iter c = Ok true (set_stchans h c1)
    /\ (forall ch, h !! ch
                   = chan_fill SNil (occurrences ch (subscribers c1))
                       <$> stchans c1 !! ch).
Proof.
  destruct (for_each_try_send SNil (subscribers c1) c1 Hopen) as (h & Hrun & Hall).
  exists h. split; [|exact Hall].
  unfold read_iter, bind at 1. rewrite Hnext. cbn [fst]. rewrite Hunknown.
  unfold bind at 1. unfold DecodeElement.
  unfold bind, dispatch, send, bind. rewrite Hrun. reflexivity.
Qed.

Lemma read_unknown_element_witness :
  let t := MkStart (MkName "urn:xmpp:sm:3" "r") [] in
  let c := set_decoder [TStartElement t; TEndElement (se_Name t)] three_sinks in
  exists h,
    read_iter c = Ok true (set_stchans h (set_decoder [TEndElement (se_Name t)] c))
    /\ (forall ch, h !! ch
                   = chan_fill SNil
                       (occurrences ch
                          (subscribers (set_decoder [TEndElement (se_Name t)] c)))
                       <$> stchans (set_decoder [TEndElement (se_Name t)] c) !! ch).
Proof.
  intros t c.
  apply (read_unknown_element c (set_decoder [TEndElement (se_Name t)] c) t None).
  - reflexivity.
  - reflexivity.
  - exact three_sinks_open.
Defined.

Lemma nextStartElement_frame (c c1 : Connection)
      (r : option StartElement * option error) :
  nextStartElement c = Ok r c1 -> exists d, c1 = set_decoder d c.
Proof.
  unfold nextStartElement. destruct (nextStartElement_loop (decoder c)) as [r' rest].
  intros [= _ <-]. now exists rest.
Qed.

Lemma DecodeElement_frame_eq (nv nv' : Stanza) (t : StartElement) (c c' : Connection) :
  DecodeElement nv t c = Ok nv' c' -> exists d, c' = set_decoder d c.
Proof.
  destruct (DecodeElement_frame nv t c) as (nv'' & d & H). rewrite H.
  intros [= _ <-]. now exists d.
Qed.

(** X10. A response whose id is the key of no callback is dropped: the
    turn of the router goes on, no subscriber sees the stanza, and the
    callback table and its channels stay as they were. *)
Theorem read_response_nobody_awaits (c c1 c2 : Connection) (t : StartElement)
        (e : option error) (iq : IQ)
  (Hnext : nextStartElement c = Ok (Some t, e) c1)
  (Hdec : DecodeElement (new_stanza t) t c1 = Ok (SIQ iq) c2)
  (Hty : Type_ (iq_Header iq) = "result" \/ Type_ (iq_Header iq) = "error")
  (Hmu : mu c = false)
  (Hnone : callbacks c !! Id (iq_Header iq) = None) :
  exists c',
    read_iter c = Ok true c'
    /\ stchans c' = stchans c
    /\ iqchans c' = iqchans c
    /\ callbacks c' = callbacks c
    /\ mu c' = false.
Proof.
  destruct (nextStartElement_frame _ _ _ Hnext) as [d1 ->].
  destruct (DecodeElement_frame_eq _ _ _ _ _ Hdec) as [d2 ->].
  destruct (dispatch_unknown_id (set_decoder d2 (set_decoder d1 c)) iq)
    as (c' & Hd & Hiq & Hst & Hcb & _ & Hmu'); [exact Hmu|exact Hty|exact Hnone|].
  exists c'. split.
  - rewrite (read_iter_dispatch _ _ _ _ _ _ Hnext Hdec). unfold bind.
    now rewrite Hd.
  - now repeat split.
Qed.

Lemma read_response_nobody_awaits_witness :
  exists c',
    read_iter (alice result0_tokens) = Ok true c'
    /\ stchans c' = stchans (alice result0_tokens)
    /\ iqchans c' = iqchans (alice result0_tokens)
    /\ callbacks c' = callbacks (alice result0_tokens)
    /\ mu c' = false.
Proof.
  apply (read_response_nobody_awaits (alice result0_tokens)
           (set_decoder (tail result0_tokens) (alice result0_tokens))
           (set_decoder (tail (tail result0_tokens)) (alice result0_tokens))
           (MkStart (MkName nsClient "iq")
              [MkAttr (MkName EmptyString "from") "example.org";
               MkAttr (MkName EmptyString "id") "0";
               MkAttr (MkName EmptyString "to") "alice@example.org/abc";
               MkAttr (MkName EmptyString "type") "result"])
           None result0).
  - reflexivity.
  - reflexivity.
  - left. reflexivity.
  - reflexivity.
  - reflexivity.
Defined.

(** X11. Any stanza that is not an IQ of type result or error goes to
    the subscribers and to them alone: each sink that has room takes it,
    and the callback table is left as it was, also when the id of the
    stanza is the key of a pending callback. *)
Theorem read_request_goes_to_subscribers (c c1 c2 : Connection) (t : StartElement)
        (e : option error) (nv : Stanza)
  (Hnext : nextStartElement c = Ok (Some t, e) c1)
  (Hdec : DecodeElement (new_stanza t) t c1 = Ok nv c2)
  (Hreq : is_iq_response nv = false)
  (Hopen : forall ch k, ch ∈ subscribers c -> stchans c !! ch = Some k ->
                        cclosed k = false) :
  exists h,
    read_iter c = Ok true (set_stchans h c2)
    /\ (forall ch, h !! ch
                   = chan_fill nv (occurrences ch (subscribers c)) <$> stchans c !! ch)
    /\ callbacks (set_stchans h c2) = callbacks c
    /\ iqchans (set_stchans h c2) = iqchans c.
Proof.
  destruct (nextStartElement_frame _ _ _ Hnext) as [d1 ->].
  destruct (DecodeElement_frame_eq _ _ _ _ _ Hdec) as [d2 ->].
  destruct (for_each_try_send nv (subscribers c)
              (set_decoder d2 (set_decoder d1 c)) Hopen) as (h & Hrun & Hall).
  exists h. split; [|split; [exact Hall|split; reflexivity]].
  rewrite (read_iter_dispatch _ _ _ _ _ _ Hnext Hdec). unfold bind.
  assert (Hd : dispatch nv (set_decoder d2 (set_decoder d1 c))
               = send nv (set_decoder d2 (set_decoder d1 c))).
  { destruct nv; try reflexivity. cbn [is_iq_response] in Hreq.
    unfold dispatch. now rewrite Hreq. }
  rewrite Hd. unfold send, bind. conn_simpl. now rewrite Hrun.
Qed.

Lemma read_request_goes_to_subscribers_witness :
  let t := MkStart (MkName nsClient "iq")
             [MkAttr (MkName EmptyString "id") "0";
              MkAttr (MkName EmptyString "type") "get"] in
  let get0 := MkIQ (MkHeader EmptyString "0" EmptyString "get") None zeroName [] in
  let c := set_decoder [TStartElement t; TEndElement (se_Name t)] waiting in
  exists h,
    read_iter c = Ok true (set_stchans h (set_decoder [] c))
    /\ (forall ch, h !! ch
                   = chan_fill (SIQ get0) (occurrences ch (subscribers c))
                       <$> stchans c !! ch)
    /\ callbacks (set_stchans h (set_decoder [] c)) = callbacks c
    /\ iqchans (set_stchans h (set_decoder [] c)) = iqchans c.
Proof.
  intros t get0 c.
  apply (read_request_goes_to_subscribers c
           (set_decoder [TEndElement (se_Name t)] c) (set_decoder [] c) t None
           (SIQ get0)).
  - reflexivity.
  - reflexivity.
  - reflexivity.
  - intros ch k Hch. inversion Hch.
Defined.

Lemma for_each_chan_close_mu (l : list nat) : forall c c' : Connection,
  for_each chan_close l c = Ok tt c' -> mu c' = mu c /\ closing c' = closing c.
Proof.
  induction l as [|a l IH]; intros c c'.
  - cbn [for_each]. unfold ret. intros [= <-]. now split.
  - cbn [for_each]. unfold bind, chan_close at 1.
    destruct (iqchans c !! a) as [k|]; [|discriminate].
    destruct (cclosed k); [discriminate|].
    intros H. apply IH in H as [H1 H2]. now split.
Qed.

Lemma read_iter_returns_locked (c c' : Connection) :
  read_iter c = Ok false c' -> mu c' = true /\ closing c' = true.
Proof.
  unfold read_iter, bind at 1, nextStartElement.
  destruct (nextStartElement_loop (decoder c)) as [[[t|] e] rest]; cbn [fst].
  - unfold bind.
    destruct (DecodeElement (new_stanza t) t (set_decoder rest c)) as [nv c1|c1|c1];
      try discriminate.
    destruct (dispatch nv c1) as [[] c2|c2|c2]; discriminate.
  - unfold bind, Lock. destruct (mu (set_decoder rest c)); [discriminate|].
    unfold get.
    match goal with |- context [for_each chan_close ?l ?s] =>
      destruct (for_each chan_close l s) as [[] c2|c2|c2] eqn:Hclose end;
      try discriminate.
    apply for_each_chan_close_mu in Hclose as [Hmu _]. conn_simpl.
    destruct (Close_returns c2) as (c3 & HClose & _ & _ & _ & Hmu3).
    rewrite HClose. unfold ret. intros [= <-].
    split; [now rewrite Hmu3, Hmu|].
    pose proof (Close_closing c2) as Hcl. now rewrite HClose in Hcl.
Qed.

(** X12. [read] takes the mutex when the stream ends and never gives it
    back: whenever [read] returns, the mutex is held and the connection
    is closing, so every later [SendIQ] waits for ever, having registered
    and written nothing. *)
Theorem read_returns_holding_the_mutex (c c' : Connection)
  (Hret : read c = Some (Ok tt c')) :
  mu c' = true
  /\ closing c' = true
  /\ forall to typ value,
       exists c'', SendIQ to typ value c' = Blocked c''
                   /\ callbacks c'' = callbacks c'
                   /\ wire c'' = wire c'.
Proof.
  assert (H : mu c' = true /\ closing c' = true).
  { unfold read in Hret. remember (S (length (decoder c))) as n eqn:E.
    clear E. revert c Hret.
    induction n as [|n IH]; intros c0 Hret; [discriminate|].
    cbn [read_loop] in Hret.
    destruct (read_iter c0) as [[|] c1|c1|c1] eqn:Hiter; try discriminate.
    - eapply IH. exact Hret.
    - injection Hret as <-. now apply read_iter_returns_locked in Hiter. }
  destruct H as [Hmu Hcl]. split; [exact Hmu|]. split; [exact Hcl|].
  intros to typ value. unfold SendIQ, bind, getCookie, make_iqchan, Lock.
  conn_simpl. rewrite Hmu. eexists. split; [reflexivity|]. now split.
Qed.

Lemma read_returns_holding_the_mutex_witness :
  exists c',
    read waiting = Some (Ok tt c')
    /\ mu c' = true
    /\ closing c' = true
    /\ forall to typ value,
         exists c'', SendIQ to typ value c' = Blocked c''
                     /\ callbacks c'' = callbacks c'
                     /\ wire c'' = wire c'.
Proof.
  eexists. split; [vm_compute; reflexivity|].
  eapply (read_returns_holding_the_mutex waiting). vm_compute. reflexivity.
Defined.

(** ** Requests and their responses *)

Lemma SendIQ_inv (to typ : string) (value : option string) (c c1 : Connection)
      (r : nat) (id : string) :
  mu c = false -> callbacks_ok c ->
  SendIQ to typ value c = Ok (r, id) c1 ->
  id = Sprintf_d (cookie c)
  /\ callbacks c1 = <[id := r]> (callbacks c)
  /\ iqchans c1 = <[r := make_chan 1]> (iqchans c)
  /\ iqchans c !! r = None
  /\ mu c1 = false
  /\ callbacks_ok c1.
Proof.
  intros Hmu Hok Hsend.
  destruct (SendIQ_callbacks_ok to typ value c Hmu Hok)
    as (r' & c' & Hrun & Hcb & Hiq & Hfresh & Hmu' & Hok').
  rewrite Hrun in Hsend. injection Hsend as E1 E2 E3. subst r' id c'.
  split; [reflexivity|]. split; [exact Hcb|]. split; [exact Hiq|].
  split; [exact Hfresh|]. split; [exact Hmu'|exact Hok'].
Qed.

Lemma SendIQ_cookie (to typ : string) (value : option string) (c c1 : Connection)
      (r : nat * string) :
  SendIQ to typ value c = Ok r c1 ->
  cookie c1 = ((cookie c + 1) mod uint64_max)%N.
Proof.
  unfold SendIQ, bind, getCookie, make_iqchan, Lock, Unlock, get, Write.
  conn_simpl. destruct (mu c); [discriminate|]. conn_simpl.
  destruct value as [bytes|]; cbn [Encode]; unfold Write, ret;
    intros [= _ <-]; reflexivity.
Qed.

Lemma uint64_succ_neq (k : N) : ((k + 1) mod uint64_max)%N <> k.
Proof.
  intros H. destruct (N.lt_ge_cases (k + 1) uint64_max) as [Hlt|Hge].
  - rewrite N.mod_small in H by exact Hlt. lia.
  - assert (Hk : (k < uint64_max)%N).
    { rewrite <- H. apply N.mod_upper_bound. discriminate. }
    assert (E : (k + 1 = uint64_max)%N) by lia.
    rewrite E, N.Div0.mod_same in H. subst k. discriminate E.
Qed.

(** X13. The response to a request reaches the one who made it: after
    [SendIQ] has returned a channel and an id, the router, given any IQ
    of type result or error with that id, puts it in that channel, where
    the caller's receive finds exactly it; the id is then no longer
    awaited. *)
Theorem SendIQ_response_reaches_caller (c c1 : Connection) (to typ : string)
        (value : option string) (r : nat) (id : string) (iq : IQ)
  (Hmu : mu c = false)
  (Hok : callbacks_ok c)
  (Hsend : SendIQ to typ value c = Ok (r, id) c1)
  (Hid : Id (iq_Header iq) = id)
  (Hty : Type_ (iq_Header iq) = "result" \/ Type_ (iq_Header iq) = "error") :
  exists c2 c3,
    dispatch (SIQ iq) c1 = Ok tt c2
    /\ chan_recv r c2 = Ok (Some iq) c3
    /\ callbacks c2 !! id = None
    /\ iqchans c3 !! r = Some (make_chan 1).
Proof.
  destruct (SendIQ_inv _ _ _ _ _ _ _ Hmu Hok Hsend)
    as (_ & Hcb & Hiq & _ & Hmu1 & Hok1).
  assert (Hkey : callbacks c1 !! Id (iq_Header iq) = Some r).
  { rewrite Hid, Hcb. apply lookup_insert_eq. }
  pose proof (dispatch_known_id c1 iq r Hmu1 Hty Hkey (proj1 Hok1 _ _ Hkey)) as Hd.
  exists (delivered c1 iq r). eexists. split; [exact Hd|].
  unfold chan_recv, delivered. conn_simpl. rewrite lookup_insert_eq.
  cbn [cbuf chan_push make_chan app ccap cclosed].
  split; [reflexivity|]. conn_simpl. split.
  - rewrite <- Hid. apply lookup_delete_eq.
  - apply lookup_insert_eq.
Qed.

Lemma SendIQ_response_reaches_caller_witness :
  exists c2 c3,
    dispatch (SIQ result0) (final (SendIQ EmptyString "get" None (alice [])))
    = Ok tt c2
    /\ chan_recv 0 c2 = Ok (Some result0) c3
    /\ callbacks c2 !! "0" = None
    /\ iqchans c3 !! 0 = Some (make_chan 1).
Proof.
  apply (SendIQ_response_reaches_caller (alice []) _ EmptyString "get" None 0 "0").
  - reflexivity.
  - apply callbacks_ok_new.
  - vm_compute. reflexivity.
  - reflexivity.
  - left. reflexivity.
Defined.

(** X14. Two requests in flight are told apart: they have different ids
    and different channels, and when the responses come back in the
    reverse order each channel ends with the response to its own
    request. *)
Theorem responses_in_reverse_order (c c1 c2 : Connection)
        (to1 typ1 to2 typ2 : string) (v1 v2 : option string)
        (r1 r2 : nat) (id1 id2 : string) (iq1 iq2 : IQ)
  (Hmu : mu c = false)
  (Hok : callbacks_ok c)
  (Hsend1 : SendIQ to1 typ1 v1 c = Ok (r1, id1) c1)
  (Hsend2 : SendIQ to2 typ2 v2 c1 = Ok (r2, id2) c2)
  (Hid1 : Id (iq_Header iq1) = id1)
  (Hid2 : Id (iq_Header iq2) = id2)
  (Hty1 : Type_ (iq_Header iq1) = "result" \/ Type_ (iq_Header iq1) = "error")
  (Hty2 : Type_ (iq_Header iq2) = "result" \/ Type_ (iq_Header iq2) = "error") :
  id1 <> id2 /\ r1 <> r2
  /\ exists c3 c4,
       dispatch (SIQ iq2) c2 = Ok tt c3
       /\ dispatch (SIQ iq1) c3 = Ok tt c4
       /\ iqchans c4 !! r1 = Some (MkChan 1 [iq1] false)
       /\ iqchans c4 !! r2 = Some (MkChan 1 [iq2] false)
       /\ callbacks c4 !! id1 = None /\ callbacks c4 !! id2 = None.
Proof.
  destruct (SendIQ_inv _ _ _ _ _ _ _ Hmu Hok Hsend1)
    as (E1 & Hcb1 & Hiq1 & Hf1 & Hmu1 & Hok1).
  destruct (SendIQ_inv _ _ _ _ _ _ _ Hmu1 Hok1 Hsend2)
    as (E2 & Hcb2 & Hiq2 & Hf2 & Hmu2 & Hok2).
  assert (Hids : id1 <> id2).
  { rewrite E1, E2, (SendIQ_cookie _ _ _ _ _ _ Hsend1). intros H.
    apply Sprintf_d_inj in H. symmetry in H. revert H. apply uint64_succ_neq. }
  assert (Hrs : r1 <> r2).
  { intros ->. rewrite Hiq1, lookup_insert_eq in Hf2. discriminate. }
  split; [exact Hids|]. split; [exact Hrs|].
  assert (Hk2 : callbacks c2 !! Id (iq_Header iq2) = Some r2).
  { rewrite Hid2, Hcb2. apply lookup_insert_eq. }
  pose proof (dispatch_known_id c2 iq2 r2 Hmu2 Hty2 Hk2 (proj1 Hok2 _ _ Hk2)) as Hd2.
  set (c3 := delivered c2 iq2 r2) in *.
  assert (Hk1 : callbacks c3 !! Id (iq_Header iq1) = Some r1).
  { unfold c3, delivered. conn_simpl. rewrite Hid1, Hid2.
    rewrite lookup_delete_ne by congruence.
    rewrite Hcb2, lookup_insert_ne by congruence. rewrite Hcb1.
    apply lookup_insert_eq. }
  assert (Hch1 : iqchans c3 !! r1 = Some (make_chan 1)).
  { unfold c3, delivered. conn_simpl. rewrite lookup_insert_ne by congruence.
    rewrite Hiq2, lookup_insert_ne by congruence. rewrite Hiq1.
    apply lookup_insert_eq. }
  pose proof (dispatch_known_id c3 iq1 r1 eq_refl Hty1 Hk1 Hch1) as Hd1.
  exists c3, (delivered c3 iq1 r1). split; [exact Hd2|]. split; [exact Hd1|].
  unfold delivered at 1 2 3 4. conn_simpl.
  split; [apply lookup_insert_eq|].
  split.
  - rewrite lookup_insert_ne by exact Hrs. unfold c3, delivered. conn_simpl.
    apply lookup_insert_eq.
  - split.
    + rewrite Hid1. apply lookup_delete_eq.
    + rewrite Hid1, lookup_delete_ne by exact Hids.
      unfold c3, delivered. conn_simpl. rewrite Hid2. apply lookup_delete_eq.
Qed.

Lemma responses_in_reverse_order_witness :
  let c1 := final (SendIQ EmptyString "get" None (alice [])) in
  let c2 := final (SendIQ EmptyString "set" None c1) in
  "0" <> "1" /\ 0 <> 1
  /\ exists c3 c4,
       dispatch (SIQ result1) c2 = Ok tt c3
       /\ dispatch (SIQ result0) c3 = Ok tt c4
       /\ iqchans c4 !! 0 = Some (MkChan 1 [result0] false)
       /\ iqchans c4 !! 1 = Some (MkChan 1 [result1] false)
       /\ callbacks c4 !! "0" = None /\ callbacks c4 !! "1" = None.
Proof.
  intros c1 c2.
  apply (responses_in_reverse_order (alice []) c1 c2 EmptyString "get"
           EmptyString "set" None None 0 1 "0" "1" result0 result1).
  - reflexivity.
  - apply callbacks_ok_new.
  - vm_compute. reflexivity.
  - vm_compute. reflexivity.
  - reflexivity.
  - reflexivity.
  - left. reflexivity.
  - right. reflexivity.
Defined.

(** ** More on escaping *)

Lemma entity_of_safe (c x : ascii) :
  x = less \/ x = greater \/ x = quote \/ x = apos ->
  has_byte x (entity_of c) = false.
Proof.
  intros Hx. unfold entity_of.
  destruct (Ascii.eqb c less) eqn:E1;
    [destruct Hx as [->|[->|[->| ->]]]; reflexivity|].
  destruct (Ascii.eqb c greater) eqn:E2;
    [destruct Hx as [->|[->|[->| ->]]]; reflexivity|].
  destruct (Ascii.eqb c quote) eqn:E3;
    [destruct Hx as [->|[->|[->| ->]]]; reflexivity|].
  destruct (Ascii.eqb c apos) eqn:E4;
    [destruct Hx as [->|[->|[->| ->]]]; reflexivity|].
  destruct (Ascii.eqb c ampersand) eqn:E5;
    [destruct Hx as [->|[->|[->| ->]]]; reflexivity|].
  cbn [str1 has_byte]. rewrite orb_false_r.
  destruct Hx as [->|[->|[->| ->]]]; assumption.
Qed.

(** X15. Whatever the input, the output of [xmlEscape] holds none of
    the bytes that could end an attribute value or open markup: no
    angle bracket, no quote and no apostrophe. *)
Theorem xmlEscape_output_is_safe (s : string) :
  has_byte less (xmlEscape s) = false
  /\ has_byte greater (xmlEscape s) = false
  /\ has_byte quote (xmlEscape s) = false
  /\ has_byte apos (xmlEscape s) = false.
Proof.
  assert (H : forall x, x = less \/ x = greater \/ x = quote \/ x = apos ->
                        has_byte x (xmlEscape s) = false).
  { intros x Hx. rewrite xmlEscape_spec. induction s as [|c s IH]; [reflexivity|].
    cbn [escape_spec]. now rewrite has_byte_app, entity_of_safe, IH. }
  repeat split; apply H; tauto.
Qed.

(** X16. [xmlEscape] works byte by byte: the escape of a concatenation
    is the concatenation of the escapes. *)
Theorem xmlEscape_app (a b : string) :
  xmlEscape (a +:+ b) = xmlEscape a +:+ xmlEscape b.
Proof.
  rewrite !xmlEscape_spec. induction a as [|c a IH]; [reflexivity|].
  rewrite append_cons. cbn [escape_spec]. now rewrite IH, append_assoc.
Qed.

Lemma length_append (a b : string) :
  String.length (a +:+ b) = String.length a + String.length b.
Proof. induction a as [|c a IH]; simpl; [reflexivity | now rewrite IH]. Qed.

Lemma entity_of_length (c : ascii) :
  if is_special c then 4 <= String.length (entity_of c)
  else entity_of c = str1 c.
Proof.
  unfold is_special, entity_of.
  destruct (Ascii.eqb c less); [simpl; lia|].
  destruct (Ascii.eqb c greater); [simpl; lia|].
  destruct (Ascii.eqb c quote); [simpl; lia|].
  destruct (Ascii.eqb c apos); [simpl; lia|].
  destruct (Ascii.eqb c ampersand); [simpl; lia|]. reflexivity.
Qed.

Lemma escape_spec_length (s : string) :
  String.length s <= String.length (escape_spec s)
  /\ (has_special s = true -> String.length s < String.length (escape_spec s)).
Proof.
  induction s as [|c s [IH1 IH2]]; [split; [simpl; lia|discriminate]|].
  cbn [escape_spec has_special]. rewrite length_append.
  pose proof (entity_of_length c) as Hc. cbn [String.length].
  destruct (is_special c).
  - split; [lia|intros _; lia].
  - rewrite Hc. cbn [str1 String.length orb]. split; [lia|].
    intros H. specialize (IH2 H). lia.
Qed.

(** X17. [xmlEscape] never shortens a string, and it leaves a string as
    it is exactly when the string holds none of the five special
    bytes. *)
Theorem xmlEscape_fixed_iff (s : string) :
  String.length s <= String.length (xmlEscape s)
  /\ (xmlEscape s = s <-> has_special s = false).
Proof.
  rewrite xmlEscape_spec. split; [apply escape_spec_length|]. split.
  - intros H. destruct (has_special s) eqn:E; [|reflexivity].
    pose proof (proj2 (escape_spec_length s) E) as Hlt. rewrite H in Hlt. lia.
  - induction s as [|c s IH]; [reflexivity|].
    cbn [has_special escape_spec]. intros H. apply orb_false_elim in H as [Hc Hs].
    pose proof (entity_of_length c) as Hlen. rewrite Hc in Hlen.
    rewrite Hlen, (IH Hs). reflexivity.
Qed.

(** ** Sinks at the edges *)

Lemma for_each_app {S A} (f : A -> M S unit) (l1 l2 : list A) (s : S) :
  for_each f (l1 ++ l2) s
  = match for_each f l1 s with
    | Ok _ s' => for_each f l2 s'
    | Panic s' => Panic s'
    | Blocked s' => Blocked s'
    end.
Proof.
  revert s. induction l1 as [|a l1 IH]; intros s; [reflexivity|].
  cbn [app for_each]. unfold bind. destruct (f a s) as [[] s'|s'|s'];
    [apply IH|reflexivity|reflexivity].
Qed.

Lemma occurrences_0 (ch : nat) (l : list nat) : ch ∉ l -> occurrences ch l = 0.
Proof.
  intros H. unfold occurrences. apply count_occ_not_In.
  intros Hin. apply H. now apply list_elem_of_In.
Qed.

(** X18. A sink that its owner has closed brings the fan-out down: the
    send on it panics, after the sinks listed before it have been served
    and before any sink listed after it is tried. *)
Theorem send_closed_sink_panics (stanza : Stanza) (c : Connection)
        (l1 l2 : list nat) (ch : nat) (k : chan Stanza)
  (Hsubs : subscribers c = l1 ++ ch :: l2)
  (Hopen : forall x kx, x ∈ l1 -> stchans c !! x = Some kx -> cclosed kx = false)
  (Hk : stchans c !! ch = Some k)
  (Hclosed : cclosed k = true) :
  exists h,
    send stanza c = Panic (set_stchans h c)
    /\ (forall x, h !! x
                  = chan_fill stanza (occurrences x l1) <$> stchans c !! x).
Proof.
  assert (Hnotin : ch ∉ l1).
  { intros Hin. rewrite (Hopen ch k Hin Hk) in Hclosed. discriminate. }
  destruct (for_each_try_send stanza l1 c Hopen) as (h & Hrun & Hall).
  exists h. split; [|exact Hall].
  unfold send, bind at 1. rewrite Hsubs, for_each_app.
  rewrite Hrun. cbn [for_each]. unfold bind, try_send at 1. conn_simpl.
  rewrite Hall, Hk, (occurrences_0 _ _ Hnotin).
  cbn [fmap option_fmap option_map]. rewrite chan_fill_0, Hclosed. reflexivity.
Qed.

Lemma send_closed_sink_panics_witness :
  let c := set_stchans {[0 := make_chan 1; 1 := MkChan 1 [] true; 2 := make_chan 1]}
             (set_subscribers [0; 1; 2] (alice [])) in
  exists h,
    send (SIQ push1) c = Panic (set_stchans h c)
    /\ (forall x, h !! x
                  = chan_fill (SIQ push1) (occurrences x [0]) <$> stchans c !! x).
Proof.
  intros c.
  apply (send_closed_sink_panics (SIQ push1) c [0] [2] 1 (MkChan 1 [] true)).
  - reflexivity.
  - intros x kx Hx. apply list_elem_of_singleton in Hx as ->.
    vm_compute. intros H. injection H as <-. reflexivity.
  - vm_compute. reflexivity.
  - reflexivity.
Defined.

(** X19. A channel made with room for [n] stanzas and then subscribed
    receives the next stanza emitted when [n] is positive; made without
    a buffer it receives nothing, the stanza being dropped for it.  The
    sinks subscribed before are served as if it were not there. *)
Theorem new_sink_receives (stanza : Stanza) (n : nat) (c : Connection)
  (Hmade : forall ch, ch ∈ subscribers c -> is_Some (stchans c !! ch))
  (Hopen : forall ch k, ch ∈ subscribers c -> stchans c !! ch = Some k ->
                        cclosed k = false) :
  exists r h,
    (r <- make_stchan n ;; SubscribeStanzas r ;;; EmitStanza stanza) c
    = Ok tt (set_stchans h (set_subscribers (subscribers c ++ [r]) c))
    /\ stchans c !! r = None
    /\ h !! r = Some (MkChan n (if n is O then [] else [stanza]) false)
    /\ (forall ch, ch <> r ->
                   h !! ch = chan_fill stanza (occurrences ch (subscribers c))
                               <$> stchans c !! ch).
Proof.
  set (r := fresh (dom (stchans c))).
  assert (Hr : stchans c !! r = None) by (apply not_elem_of_dom, is_fresh).
  assert (Hnotin : r ∉ subscribers c).
  { intros Hin. destruct (Hmade r Hin) as [k Hk]. congruence. }
  set (c1 := set_subscribers (subscribers c ++ [r])
               (set_stchans (<[r := make_chan n]> (stchans c)) c)).
  destruct (for_each_try_send stanza (subscribers c1) c1) as (h & Hrun & Hall).
  { unfold c1. conn_simpl. intros ch k Hch Hk.
    destruct (decide (r = ch)) as [<-|Hne].
    - rewrite lookup_insert_eq in Hk. now injection Hk as <-.
    - rewrite lookup_insert_ne in Hk by exact Hne.
      apply elem_of_app in Hch as [Hch|Hch]; [now apply (Hopen ch)|].
      apply list_elem_of_singleton in Hch. congruence. }
  exists r, h. split; [|split; [exact Hr|split]].
  - unfold bind at 1. unfold make_stchan. fold r.
    unfold bind, SubscribeStanzas, subscribe, EmitStanza, send, bind. conn_simpl.
    fold c1. change (subscribers c ++ [r]) with (subscribers c1).
    rewrite Hrun. reflexivity.
  - rewrite Hall. unfold c1. conn_simpl. rewrite lookup_insert_eq.
    cbn [fmap option_fmap option_map]. unfold occurrences.
    rewrite count_occ_app. fold (occurrences r (subscribers c)).
    rewrite (occurrences_0 _ _ Hnotin). cbn [count_occ].
    destruct (Nat.eq_dec r r) as [_|N]; [|contradiction].
    unfold chan_fill, chan_room, make_chan. cbn [ccap cbuf cclosed length app].
    destruct n as [|n]; [reflexivity|]. reflexivity.
  - intros ch Hne. rewrite Hall. unfold c1. conn_simpl.
    rewrite lookup_insert_ne by congruence. unfold occurrences.
    rewrite count_occ_app. cbn [count_occ].
    destruct (Nat.eq_dec r ch) as [E|_]; [congruence|]. now rewrite Nat.add_0_r.
Qed.

Lemma new_sink_receives_witness :
  exists r h,
    (r <- make_stchan 100 ;; SubscribeStanzas r ;;; EmitStanza (SIQ push1)) (alice [])
    = Ok tt (set_stchans h
               (set_subscribers (subscribers (alice []) ++ [r]) (alice [])))
    /\ stchans (alice []) !! r = None
    /\ h !! r = Some (MkChan 100 [SIQ push1] false)
    /\ (forall ch, ch <> r ->
                   h !! ch = chan_fill (SIQ push1)
                               (occurrences ch (subscribers (alice [])))
                               <$> stchans (alice []) !! ch).
Proof.
  apply (new_sink_receives (SIQ push1) 100 (alice [])).
  - intros ch Hch. inversion Hch.
  - intros ch k Hch. inversion Hch.
Defined.

(** ** Closing again and again *)

Lemma Close_times_closing (n : nat) : forall c : Connection,
  closing c = true ->
  Close_times n c
  = Ok tt (if n is O then c else set_conn_open false c).
Proof.
  induction n as [|n IH]; intros c Hc; [reflexivity|].
  cbn [Close_times]. unfold bind at 1. unfold Close at 1, bind, get.
  rewrite Hc. unfold Conn_Close. rewrite IH by exact Hc.
  destruct n; reflexivity.
Qed.

(** X20. However often [Close] is called, the closing tag is written
    once, by the first call; the TCP connection is closed by the second
    call and stays closed. *)
Theorem Close_many_times (n : nat) (c : Connection)
  (Hfirst : closing c = false) :
  exists c',
    Close_times (S n) c = Ok tt c'
    /\ wire c' = wire c +:+ "</stream:stream>"
    /\ closing c' = true
    /\ conn_open c' = (if n is O then conn_open c else false).
Proof.
  cbn [Close_times]. unfold bind at 1. unfold Close at 1, bind, get.
  rewrite Hfirst. unfold Write. conn_simpl.
  rewrite Close_times_closing by reflexivity.
  eexists. split; [reflexivity|]. destruct n; now repeat split.
Qed.

Lemma Close_many_times_witness :
  exists c',
    Close_times 3 (alice []) = Ok tt c'
    /\ wire c' = wire (alice []) +:+ "</stream:stream>"
    /\ closing c' = true
    /\ conn_open c' = false.
Proof. apply (Close_many_times 2 (alice [])). reflexivity. Defined.

(** ** Binding *)

(** X21. [Connection_bind] does not tell an error from a result.  Run
    with no turn of the router it waits for ever; once the router has
    delivered the IQ that carries the id of the request, of type result
    or of type error, the wait ends with no failure, the channel is
    empty again, and [jid] is whatever the library has made of the inner
    XML of that IQ, the rest of the connection being as the router left
    it. *)
Theorem bind_takes_any_response (Unmarshal_JID : IQ -> string)
        (c c1 : Connection) (r : nat) (id : string) (iq : IQ)
  (Hmu : mu c = false)
  (Hok : callbacks_ok c)
  (Hsend : SendIQ EmptyString "set" (Some bind_request) c = Ok (r, id) c1)
  (Hid : Id (iq_Header iq) = id)
  (Hty : Type_ (iq_Header iq) = "result" \/ Type_ (iq_Header iq) = "error") :
  (exists c', Connection_bind Unmarshal_JID c = Blocked c')
  /\ exists c2,
       dispatch (SIQ iq) c1 = Ok tt c2
       /\ bind_await Unmarshal_JID r c2
          = Ok tt (set_jid (Unmarshal_JID iq)
                     (set_iqchans (<[r := make_chan 1]> (iqchans c2)) c2)).
Proof.
  destruct (SendIQ_inv _ _ _ _ _ _ _ Hmu Hok Hsend)
    as (_ & Hcb & Hiq & _ & Hmu1 & Hok1).
  split.
  - unfold Connection_bind, bind at 1. rewrite Hsend. cbn [fst].
    unfold bind_await, bind, chan_recv. rewrite Hiq, lookup_insert_eq.
    cbn [cbuf make_chan cclosed]. eexists. reflexivity.
  - assert (Hkey : callbacks c1 !! Id (iq_Header iq) = Some r).
    { rewrite Hid, Hcb. apply lookup_insert_eq. }
    pose proof (dispatch_known_id c1 iq r Hmu1 Hty Hkey (proj1 Hok1 _ _ Hkey)) as Hd.
    exists (delivered c1 iq r). split; [exact Hd|].
    unfold bind_await, bind, chan_recv, delivered. conn_simpl.
    rewrite lookup_insert_eq. cbn [cbuf chan_push make_chan app ccap cclosed].
    reflexivity.
Qed.

Lemma bind_takes_any_response_witness :
  let iq := MkIQ (MkHeader EmptyString "0" EmptyString "error")
              (Some (MkError "409" "cancel"
                       (MkName "urn:ietf:params:xml:ns:xmpp-stanzas" "conflict")
                       EmptyString))
              zeroName [] in
  (exists c', Connection_bind (fun _ => EmptyString) (alice []) = Blocked c')
  /\ exists c2,
       dispatch (SIQ iq)
         (final (SendIQ EmptyString "set" (Some bind_request) (alice [])))
       = Ok tt c2
       /\ bind_await (fun _ => EmptyString) 0 c2
          = Ok tt (set_jid ((fun _ => EmptyString) iq)
                     (set_iqchans (<[0 := make_chan 1]> (iqchans c2)) c2)).
Proof.
  intros iq.
  apply (bind_takes_any_response (fun _ => EmptyString) (alice []) _ 0 "0" iq).
  - reflexivity.
  - apply callbacks_ok_new.
  - vm_compute. reflexivity.
  - reflexivity.
  - right. reflexivity.
Defined.

Lemma read_end_of_stream_closes (c : Connection) :
  end_of_stream (decoder c) -> mu c = false -> callbacks_ok c ->
  exists c',
    read c = Some (Ok tt c')
    /\ forall id ch, callbacks c !! id = Some ch ->
                     iqchans c' !! ch = Some (MkChan 1 [] true).
Proof.
  intros Heos Hmu Hok. apply nextStartElement_loop_nil in Heos.
  unfold read. cbn [read_loop]. unfold read_iter.
  unfold bind at 1. unfold nextStartElement.
  destruct (nextStartElement_loop (decoder c)) as [[t e] rest]. simpl in Heos.
  subst t. cbn [fst].
  unfold bind at 1 2. unfold Lock at 1. cbn [mu set_decoder]. rewrite Hmu.
  unfold bind at 1. unfold get at 1.
  set (c0 := add_log EvLock (set_mu true (set_decoder rest c))).
  assert (Hcc : callback_chans c0 = callback_chans c) by reflexivity.
  destruct (for_each_chan_close (callback_chans c0) c0)
    as (c1 & Hrun & Hin & _).
  { rewrite Hcc. now apply callback_chans_NoDup. }
  { rewrite Hcc. intros ch Hch. apply callback_chans_elem in Hch as [id Hid].
    exists (make_chan 1). split; [|reflexivity]. exact (proj1 Hok _ _ Hid). }
  rewrite Hrun. destruct (Close_returns c1) as (c' & HClose & Hiq & _).
  unfold bind. rewrite HClose. unfold ret.
  exists c'. split; [reflexivity|].
  intros id ch Hid. rewrite Hiq.
  rewrite Hin by (rewrite Hcc; apply callback_chans_elem; eauto).
  change (iqchans c0) with (iqchans c). now rewrite (proj1 Hok _ _ Hid).
Qed.

(** X22. When the stream ends before the response to the bind request
    has come, the router closes the channel of the request and returns,
    and the wait of [Connection_bind] then receives a nil response and
    panics on it. *)
Theorem bind_panics_when_stream_ends (c c1 : Connection) (r : nat) (id : string)
  (Hmu : mu c = false)
  (Hok : callbacks_ok c)
  (Hsend : SendIQ EmptyString "set" (Some bind_request) c = Ok (r, id) c1)
  (Heos : end_of_stream (decoder c1)) :
  exists c2,
    read c1 = Some (Ok tt c2)
    /\ forall Unmarshal_JID, bind_await Unmarshal_JID r c2 = Panic c2.
Proof.
  destruct (SendIQ_inv _ _ _ _ _ _ _ Hmu Hok Hsend)
    as (_ & Hcb & _ & _ & Hmu1 & Hok1).
  destruct (read_end_of_stream_closes c1 Heos Hmu1 Hok1) as (c2 & Hread & Hclosed).
  exists c2. split; [exact Hread|]. intros Unmarshal_JID.
  unfold bind_await, bind, chan_recv.
  rewrite (Hclosed id r) by (rewrite Hcb; apply lookup_insert_eq).
  reflexivity.
Qed.

Lemma bind_panics_when_stream_ends_witness :
  exists c2,
    read (final (SendIQ EmptyString "set" (Some bind_request) (alice [])))
    = Some (Ok tt c2)
    /\ forall Unmarshal_JID, bind_await Unmarshal_JID 0 c2 = Panic c2.
Proof.
  apply (bind_panics_when_stream_ends (alice []) _ 0 "0").
  - reflexivity.
  - apply callbacks_ok_new.
  - vm_compute. reflexivity.
  - simpl. constructor.
Defined.

(** ** The roster layer and the other stanzas *)

Lemma for_each_try_send_final (stanza : Stanza) (l : list nat) :
  forall c : Connection,
    exists h, final (for_each (fun ch => try_send ch stanza) l c) = set_stchans h c.
Proof.
  induction l as [|a l IH]; intros c.
  - exists (stchans c). cbn [for_each]. unfold ret. cbn [final].
    now rewrite set_stchans_same.
  - cbn [for_each]. unfold bind, try_send at 1.
    destruct (stchans c !! a) as [k|]; [|apply IH].
    destruct (cclosed k).
    + exists (stchans c). cbn [final]. now rewrite set_stchans_same.
    + destruct (chan_ready k); [|apply IH].
      destruct (IH (set_stchans (<[a:=chan_push stanza k]> (stchans c)) c))
        as [h Hh]. exists h. rewrite Hh. reflexivity.
Qed.

(** Whether it returns or panics, the fan-out has touched the store of
    stanza channels and nothing else. *)
Lemma send_final (stanza : Stanza) (c : Connection) :
  exists h, final (send stanza c) = set_stchans h c.
Proof. unfold send, bind at 1. apply for_each_try_send_final. Qed.

(** X23. The roster layer writes to the connection for a roster push and
    for nothing else: after any other stanza, whatever its kind, the
    bytes written, the callback table and its channels are what they
    were; no other request of the peer is ever answered by it. *)
Theorem roster_layer_answers_only_pushes (stanza : Stanza) (c : Connection)
  (Hother : is_roster_push stanza = false) :
  wire (final (rfc6121.read_stanza stanza c)) = wire c
  /\ callbacks (final (rfc6121.read_stanza stanza c)) = callbacks c
  /\ iqchans (final (rfc6121.read_stanza stanza c)) = iqchans c
  /\ cookie (final (rfc6121.read_stanza stanza c)) = cookie c.
Proof.
  destruct stanza as [| |m|p|iq| |p]; try (now repeat split).
  - unfold rfc6121.read_stanza.
    destruct (Type_ (pres_Header p) =? "subscribe")%string; [|now repeat split].
    change (rfc6121.EmitStanza (SAuthorizationRequest p) c)
      with (send (SAuthorizationRequest p) c).
    destruct (send_final (SAuthorizationRequest p) c) as [h ->]. now repeat split.
  - unfold rfc6121.read_stanza. cbn [is_roster_push] in Hother. rewrite Hother.
    now repeat split.
Qed.

Lemma roster_layer_answers_only_pushes_witness :
  wire (final (rfc6121.read_stanza (SIQ result0) waiting)) = wire waiting
  /\ callbacks (final (rfc6121.read_stanza (SIQ result0) waiting)) = callbacks waiting
  /\ iqchans (final (rfc6121.read_stanza (SIQ result0) waiting)) = iqchans waiting
  /\ cookie (final (rfc6121.read_stanza (SIQ result0) waiting)) = cookie waiting.
Proof.
  apply (roster_layer_answers_only_pushes (SIQ result0) waiting). reflexivity.
Defined.

(** X24. A presence of type subscribe is handed back to the core as an
    authorization request, which every subscribed sink with room
    receives, the layer's own among them; read again by the layer, the
    authorization request does nothing, so the hand-back happens once. *)
Theorem subscription_request_is_re_emitted (p : Presence) (c : Connection)
  (Hty : Type_ (pres_Header p) = "subscribe")
  (Hopen : forall ch k, ch ∈ subscribers c -> stchans c !! ch = Some k ->
                        cclosed k = false) :
  exists h,
    rfc6121.read_stanza (SPresence p) c = Ok tt (set_stchans h c)
    /\ (forall ch, h !! ch
                   = chan_fill (SAuthorizationRequest p)
                       (occurrences ch (subscribers c)) <$> stchans c !! ch)
    /\ forall c', rfc6121.read_stanza (SAuthorizationRequest p) c' = Ok tt c'.
Proof.
  destruct (for_each_try_send (SAuthorizationRequest p) (subscribers c) c Hopen)
    as (h & Hrun & Hall).
  exists h. split; [|split; [exact Hall|reflexivity]].
  unfold rfc6121.read_stanza. rewrite Hty, String.eqb_refl.
  change (rfc6121.EmitStanza (SAuthorizationRequest p) c)
    with (send (SAuthorizationRequest p) c).
  unfold send, bind. exact Hrun.
Qed.

Lemma subscription_request_is_re_emitted_witness :
  let p := MkPresence (MkHeader "bob@example.org" EmptyString EmptyString "subscribe")
             EmptyString EmptyString EmptyString 0 None in
  exists h,
    rfc6121.read_stanza (SPresence p) three_sinks = Ok tt (set_stchans h three_sinks)
    /\ (forall ch, h !! ch
                   = chan_fill (SAuthorizationRequest p)
                       (occurrences ch (subscribers three_sinks))
                       <$> stchans three_sinks !! ch)
    /\ forall c', rfc6121.read_stanza (SAuthorizationRequest p) c' = Ok tt c'.
Proof.
  intros p. apply (subscription_request_is_re_emitted p three_sinks).
  - reflexivity.
  - exact three_sinks_open.
Defined.

(** ** Witnesses of earlier lemmas *)



Lemma session_invariant_witness :
  mu (final (SendIQ EmptyString "get" None (alice []))) = false
  /\ callbacks_ok (final (SendIQ EmptyString "get" None (alice []))).
Proof.
  apply (session_invariant (final (SendIQ EmptyString "get" None (alice [])))).
  apply (session_SendIQ (alice []) EmptyString "get" None (0, "0")).
  - apply session_Dial.
  - vm_compute. reflexivity.
Defined.
